(** * Folder comparison session of the compare-folders extension

    Shallow embedding of [src/services/comparer.ts]: the options handed to
    the directory comparer ([getOptions]), the comparison session
    ([compareFolders]) with its try/catch boundary, and the result object
    ([CompareResult], [hasResult]).

    Collaborators that live outside [comparer.ts] are explicit:
    - [validate], [pathContext.getPaths], [getConfiguration] and the
      [compare] function of dir-compare are fields of an environment [Env];
    - [path.join] of Node is a section variable;
    - [log] and [showErrorMessage] append to an event trace. *)

From Stdlib Require Import Ascii String List Bool Arith Lia Permutation.
Import ListNotations.
Open Scope string_scope.
Open Scope list_scope.

(** ** JavaScript values used by the session *)

(** What a [catch] clause can receive. *)
Inductive JsError : Type :=
| Rejection (reason : string)   (* thrown / rejected by a collaborator *)
| ERR_INVALID_ARG_TYPE.         (* TypeError of path.join on a non-string *)

(** Completion of an expression: a value, or a thrown error. *)
Inductive Outcome (A : Type) : Type :=
| Returns (a : A)
| Throws (e : JsError).
Arguments Returns {A} a.
Arguments Throws {A} e.

(** [a || b] on numbers: the first operand when it is truthy (non-zero). *)
Definition js_or (a b : nat) : nat := if Nat.eqb a 0 then b else a.

(** Truthiness of a number. *)
Definition truthy (n : nat) : bool := negb (Nat.eqb n 0).

(** [xs.join(sep)] on an array of strings. *)
Definition array_join (sep : string) (xs : list string) : string :=
  String.concat sep xs.

(** ** Data of dir-compare seen by the session *)

Inductive DifferenceState : Type := st_equal | st_left | st_right | st_distinct.

Inductive DifferenceType : Type :=
| ty_missing | ty_file | ty_directory | ty_broken_link.

Definition state_eqb (a b : DifferenceState) : bool :=
  match a, b with
  | st_equal, st_equal | st_left, st_left
  | st_right, st_right | st_distinct, st_distinct => true
  | _, _ => false
  end.

Definition type_eqb (a b : DifferenceType) : bool :=
  match a, b with
  | ty_missing, ty_missing | ty_file, ty_file
  | ty_directory, ty_directory | ty_broken_link, ty_broken_link => true
  | _, _ => false
  end.

(** One element of [diffSet]; [None] is [undefined] (the side is missing). *)
Record Difference : Type := mkDifference {
  path1 : option string;
  path2 : option string;
  name1 : option string;
  name2 : option string;
  state : DifferenceState;
  type1 : DifferenceType;
  type2 : DifferenceType
}.

(** The handlers the options refer to, as tokens. *)
Inductive FileCompareHandler : Type := lineBasedFileCompare_compareAsync.
Inductive NameHandler : Type := compareName.

(** The configuration values read through [getConfiguration]. [None] is a
    value that is [undefined] or [null], as [includeFilter] and
    [excludeFilter], which declare no default, can be. *)
Module Config.
Record t : Type := mk {
  compareContent : option bool;
  excludeFilter : option (list string);
  includeFilter : option (list string);
  ignoreFileNameCase : bool;
  ignoreExtension : option (list (list string));
  ignoreWhiteSpaces : bool;
  ignoreAllWhiteSpaces : bool;
  ignoreEmptyLines : bool;
  ignoreLineEnding : bool;
  showIdentical : bool
}.
End Config.

(** [CompreOptions], the object handed to [compare]. *)
Module Options.
Record t : Type := mk {
  compareContent : option bool;
  excludeFilter : option string;
  includeFilter : option string;
  ignoreCase : bool;
  ignoreExtension : option (list (list string));
  ignoreWhiteSpaces : bool;
  ignoreAllWhiteSpaces : bool;
  ignoreEmptyLines : bool;
  ignoreLineEnding : bool;
  compareFileAsync : FileCompareHandler;
  compareNameHandler : option NameHandler
}.
End Options.

(** The resolved value of [compare]: [diffSet] may be absent. *)
Record CompareOutput : Type := mkCompareOutput {
  diffSet : option (list Difference)
}.

(** ** The result object *)

Record CompareResult : Type := mkCompareResult {
  distinct : list (list string);
  left : list (list string);
  right : list (list string);
  identicals : list (list string);
  leftPath : string;
  rightPath : string
}.

(** [hasResult()]: the value of
    [distinct.length || left.length || right.length], a number. *)
Definition hasResult (r : CompareResult) : nat :=
  js_or (js_or (length (distinct r)) (length (left r))) (length (right r)).

(** ** Effects: an event trace and thrown errors *)

Inductive Event : Type :=
| EvCompare (p1 p2 : string) (o : Options.t)
| EvLog (msg : string) (e : JsError)
| EvShowErrorMessage (msg : string) (e : JsError).

(** The trace of observable calls, oldest first. *)
Definition World : Type := list Event.

Definition M (A : Type) : Type := World -> Outcome A * World.

Definition ret {A : Type} (a : A) : M A := fun w => (Returns a, w).

Definition bind {A B : Type} (m : M A) (k : A -> M B) : M B :=
  fun w =>
    match m w with
    | (Returns a, w') => k a w'
    | (Throws e, w') => (Throws e, w')
    end.

Definition lift {A : Type} (o : Outcome A) : M A := fun w => (o, w).

Definition emit (ev : Event) : M unit := fun w => (Returns tt, w ++ [ev]).

Definition try_catch {A : Type} (m : M A) (handler : JsError -> M A) : M A :=
  fun w =>
    match m w with
    | (Returns a, w') => (Returns a, w')
    | (Throws e, w') => handler e w'
    end.

Declare Scope js_scope.
Delimit Scope js_scope with js.
Notation "x <- m ;; k" := (bind m (fun x => k))
  (at level 61, m at next level, right associativity) : js_scope.
Notation "m ;;; k" := (bind m (fun _ => k))
  (at level 61, right associativity) : js_scope.

(** [xs.map(f)] when [f] may throw: elements in order, the first throw wins. *)
Fixpoint array_map {A B : Type} (f : A -> Outcome B) (xs : list A)
  : Outcome (list B) :=
  match xs with
  | [] => Returns []
  | x :: xs' =>
      match f x with
      | Throws e => Throws e
      | Returns y =>
          match array_map f xs' with
          | Throws e => Throws e
          | Returns ys => Returns (y :: ys)
          end
      end
  end.

(** ** The collaborators of one run *)

Record Env : Type := mkEnv {
  validate : Outcome bool;
  getPaths : Outcome (string * string);
  configuration : Config.t;
  compare : string -> string -> Options.t -> Outcome CompareOutput
}.

(** ** getOptions *)

Definition getOptions (c : Config.t) : Options.t :=
  {| Options.compareContent := Config.compareContent c;
     Options.excludeFilter :=
       match Config.excludeFilter c with
       | Some xs => Some (array_join "," xs)
       | None => None
       end;
     Options.includeFilter :=
       match Config.includeFilter c with
       | Some xs => Some (array_join "," xs)
       | None => None
       end;
     Options.ignoreCase := Config.ignoreFileNameCase c;
     Options.ignoreExtension := Config.ignoreExtension c;
     Options.ignoreWhiteSpaces := Config.ignoreWhiteSpaces c;
     Options.ignoreAllWhiteSpaces := Config.ignoreAllWhiteSpaces c;
     Options.ignoreEmptyLines := Config.ignoreEmptyLines c;
     Options.ignoreLineEnding := Config.ignoreLineEnding c;
     Options.compareFileAsync := lineBasedFileCompare_compareAsync;
     Options.compareNameHandler :=
       match Config.ignoreExtension c with
       | Some _ => Some compareName
       | None => None
       end |}.

(** [{ compareContent: true, ...options }]: the object literal of
    [getOptions] always owns the key [compareContent], so the spread
    overwrites the leading [true] with the value of [options], also when
    that value is [undefined]. *)
Definition concatenatedOptions (options : Options.t) : Options.t :=
  {| Options.compareContent := Options.compareContent options;
     Options.excludeFilter := Options.excludeFilter options;
     Options.includeFilter := Options.includeFilter options;
     Options.ignoreCase := Options.ignoreCase options;
     Options.ignoreExtension := Options.ignoreExtension options;
     Options.ignoreWhiteSpaces := Options.ignoreWhiteSpaces options;
     Options.ignoreAllWhiteSpaces := Options.ignoreAllWhiteSpaces options;
     Options.ignoreEmptyLines := Options.ignoreEmptyLines options;
     Options.ignoreLineEnding := Options.ignoreLineEnding options;
     Options.compareFileAsync := Options.compareFileAsync options;
     Options.compareNameHandler := Options.compareNameHandler options |}.

(** ** The four filters of compareFolders *)

Definition is_distinct (diff : Difference) : bool :=
  state_eqb (state diff) st_distinct.

Definition is_left (diff : Difference) : bool :=
  state_eqb (state diff) st_left && type_eqb (type1 diff) ty_file.

Definition is_right (diff : Difference) : bool :=
  state_eqb (state diff) st_right && type_eqb (type2 diff) ty_file.

Definition is_identical (diff : Difference) : bool :=
  state_eqb (state diff) st_equal && type_eqb (type1 diff) ty_file.

Definition emptyResponse : CompareResult :=
  mkCompareResult [] [] [] [] "" "".

Section Comparer.

(** [path.join] of Node on two strings. *)
Variable path_join : string -> string -> string.

(** [path.join(a!, b!)]: the non-null assertions are erased at run time
    and [path.join] throws on an argument that is not a string. *)
Definition join (a b : option string) : Outcome string :=
  match a, b with
  | Some a', Some b' => Returns (path_join a' b')
  | _, _ => Throws ERR_INVALID_ARG_TYPE
  end.

Definition pair_of (diff : Difference) : Outcome (list string) :=
  match join (path1 diff) (name1 diff) with
  | Throws e => Throws e
  | Returns p1 =>
      match join (path2 diff) (name2 diff) with
      | Throws e => Throws e
      | Returns p2 => Returns [p1; p2]
      end
  end.

Definition single1 (diff : Difference) : Outcome (list string) :=
  match join (path1 diff) (name1 diff) with
  | Throws e => Throws e
  | Returns p1 => Returns [p1]
  end.

Definition single2 (diff : Difference) : Outcome (list string) :=
  match join (path2 diff) (name2 diff) with
  | Throws e => Throws e
  | Returns p2 => Returns [p2]
  end.

(** [await compare(folder1Path, folder2Path, concatenatedOptions)] *)
Definition call_compare (env : Env) (p1 p2 : string) (o : Options.t)
  : M CompareOutput :=
  fun w => (compare env p1 p2 o, w ++ [EvCompare p1 p2 o]).

(** The partitions computed from a diff set, in source order. *)
Definition partitions (showIdentical : bool) (ds : list Difference)
           (folder1Path folder2Path : string) : Outcome CompareResult :=
  match array_map pair_of (filter is_distinct ds) with
  | Throws e => Throws e
  | Returns distinct' =>
  match array_map single1 (filter is_left ds) with
  | Throws e => Throws e
  | Returns left' =>
  match array_map single2 (filter is_right ds) with
  | Throws e => Throws e
  | Returns right' =>
  match (if showIdentical
         then array_map single1 (filter is_identical ds)
         else Returns []) with
  | Throws e => Throws e
  | Returns identicals' =>
      Returns (mkCompareResult distinct' left' right' identicals'
                               folder1Path folder2Path)
  end end end end.

(** [const { diffSet = [] } = res]: the default replaces an absent
    [diffSet]. *)
Definition diffSet_or_empty (res : CompareOutput) : list Difference :=
  match diffSet res with Some ds => ds | None => [] end.

(** The body of the [try] block. *)
Definition try_block (env : Env) : M CompareResult :=
  (ok <- lift (validate env) ;;
   if negb ok then ret emptyResponse
   else
     paths <- lift (getPaths env) ;;
     let showIdentical := Config.showIdentical (configuration env) in
     let options := getOptions (configuration env) in
     res <- call_compare env (fst paths) (snd paths)
              (concatenatedOptions options) ;;
     let diffSet := diffSet_or_empty res in
     lift (partitions showIdentical diffSet (fst paths) (snd paths)))%js.

(** The [catch] clause. *)
Definition catch_block (error : JsError) : M CompareResult :=
  (emit (EvLog "error while comparing" error) ;;;
   emit (EvShowErrorMessage "Oops, something went wrong while comparing"
                            error) ;;;
   ret emptyResponse)%js.

Definition compareFolders (env : Env) : M CompareResult :=
  try_catch (try_block env) catch_block.

(** The arguments [compare] is called with in a run of [env] that got
    the folder paths [p]. *)
Definition compare_call (env : Env) (p : string * string) : Event :=
  EvCompare (fst p) (snd p) (concatenatedOptions (getOptions (configuration env))).

Definition compare_result (env : Env) (p : string * string)
  : Outcome CompareOutput :=
  compare env (fst p) (snd p) (concatenatedOptions (getOptions (configuration env))).

(** A run that reaches the final [return new CompareResult(...)] on the
    diff set [ds]. *)
Definition completes (env : Env) (ds : list Difference) (r : CompareResult)
  : Prop :=
  validate env = Returns true /\
  exists p res,
    getPaths env = Returns p /\
    compare_result env p = Returns res /\
    ds = diffSet_or_empty res /\
    partitions (Config.showIdentical (configuration env)) ds (fst p) (snd p)
      = Returns r.

(** An error thrown inside the [try] block, by source: validation, the
    path context, the walk ([compare] rejects), or the classification
    ([path.join] throws while the partitions are built). *)
Definition run_error (env : Env) (e : JsError) : Prop :=
  validate env = Throws e \/
  (validate env = Returns true /\ getPaths env = Throws e) \/
  (validate env = Returns true /\
   exists p, getPaths env = Returns p /\ compare_result env p = Throws e) \/
  (validate env = Returns true /\
   exists p res,
     getPaths env = Returns p /\ compare_result env p = Returns res /\
     partitions (Config.showIdentical (configuration env))
       (diffSet_or_empty res) (fst p) (snd p) = Throws e).

Definition error_events (e : JsError) : list Event :=
  [EvLog "error while comparing" e;
   EvShowErrorMessage "Oops, something went wrong while comparing" e].

End Comparer.

(** ** The entries behind the four partitions *)








(** An entry classified by presence alone: equal when both sides are
    there, one-sided otherwise. *)
Definition presence_only (d : Difference) : Prop :=
  state d = st_equal \/
  (state d = st_left /\ type2 d = ty_missing) \/
  (state d = st_right /\ type1 d = ty_missing).

(** ** Extension-pair validation *)

Definition mem_ext (e : string) (pair : list string) : bool :=
  existsb (String.eqb e) pair.

(** Modelled from the spec: [validate] of ignoreExtensionTools, which is
    not under src/. "Every extension value appears in at most one declared
    pair": no extension of a pair occurs in another pair. *)
Fixpoint validate_pairs (pairs : list (list string)) : bool :=
  match pairs with
  | [] => true
  | p :: rest =>
      forallb (fun e => negb (existsb (mem_ext e) rest)) p
      && validate_pairs rest
  end.

(** Modelled from the spec: the validation of a configuration; without
    declared pairs there is nothing to reject. *)
Definition validate_configuration (c : Config.t) : bool :=
  match Config.ignoreExtension c with
  | Some pairs => validate_pairs pairs
  | None => true
  end.

(** The extension [e] appears in two declared pairs. *)
Definition in_two_pairs (e : string) (pairs : list (list string)) : Prop :=
  exists i j p q,
    i <> j /\ nth_error pairs i = Some p /\ nth_error pairs j = Some q /\
    In e p /\ In e q.

(** ** The walker and classifier behind [compare] *)

Module SpecModel.

(** Modelled from the spec: an entry of a tree (the Entry of the data
    model, with the content of a file and the listing of a directory);
    the trees are walked by dir-compare, which is not under src/. *)
#[warnings="-register-all"]
Inductive Node : Type :=
| File (name : string) (content : string)
| Dir (name : string) (children : list Node).

(** Modelled from the spec: base name, kind and listing of an entry (3). *)
Definition node_name (n : Node) : string :=
  match n with File s _ | Dir s _ => s end.

Definition node_type (n : Node) : DifferenceType :=
  match n with File _ _ => ty_file | Dir _ _ => ty_directory end.

Definition node_children (n : Node) : list Node :=
  match n with File _ _ => [] | Dir _ ch => ch end.

Definition same_kind (a b : Node) : bool :=
  type_eqb (node_type a) (node_type b).

Definition lower_ascii (c : Ascii.ascii) : Ascii.ascii :=
  let n := Ascii.nat_of_ascii c in
  if Nat.leb 65 n && Nat.leb n 90 then Ascii.ascii_of_nat (n + 32) else c.

(** Modelled from the spec: the ordinal, locale-independent case fold of
    NameMatcher (4.1), on ASCII letters. *)
Fixpoint lower (s : string) : string :=
  match s with
  | EmptyString => EmptyString
  | String c s' => String (lower_ascii c) (lower s')
  end.

(** Modelled from the spec: stem and extension of a name (4.1), around its
    last dot, if it has one. *)
Fixpoint split_last_dot (s : string) : option (string * string) :=
  match s with
  | EmptyString => None
  | String c s' =>
      match split_last_dot s' with
      | Some (st, ex) => Some (String c st, ex)
      | None => if Ascii.eqb c "."%char then Some (EmptyString, s') else None
      end
  end.

Definition stem (s : string) : string :=
  match split_last_dot s with Some (st, _) => st | None => s end.

Definition extension (s : string) : string :=
  match split_last_dot s with Some (_, ex) => ex | None => EmptyString end.

(** Modelled from the spec: the pair [(x, y)] is in the declared
    equivalence set (4.1), in this order. *)
Definition declared (pairs : list (list string)) (x y : string) : bool :=
  existsb (fun p => match p with
                    | [u; v] => String.eqb u x && String.eqb v y
                    | _ => false
                    end) pairs.

(** Modelled from the spec: NameMatcher (4.1), [compareName] of
    ignoreExtensionTools and the name comparison of dir-compare, neither
    under src/. Case-insensitive when [ignoreCase] is set; with an extension
    pair set, equal stems and extensions that are identical or declared
    equivalent in either order. *)
Definition matches (o : Options.t) (a b : string) : bool :=
  let a' := if Options.ignoreCase o then lower a else a in
  let b' := if Options.ignoreCase o then lower b else b in
  match Options.ignoreExtension o with
  | None => String.eqb a' b'
  | Some pairs =>
      String.eqb (stem a') (stem b')
      && (String.eqb (extension a') (extension b')
          || declared pairs (extension a') (extension b')
          || declared pairs (extension b') (extension a'))
  end.

(** Modelled from the spec: the counterpart test of TreeWalker (4.3), same
    kind and matching names. *)
Definition counterpart (o : Options.t) (l r : Node) : bool :=
  same_kind l r && matches o (node_name l) (node_name r).

(** Modelled from the spec: position of the first right entry that is a
    counterpart of [l] (4.3, first match). *)
Fixpoint first_match (o : Options.t) (l : Node) (rs : list Node)
  : option nat :=
  match rs with
  | [] => None
  | r :: rs' =>
      if counterpart o l r then Some 0
      else match first_match o l rs' with
           | Some k => Some (S k)
           | None => None
           end
  end.

(** Modelled from the spec: the right entries that are the counterpart of
    no left entry (4.3). *)
Definition unmatched_right (o : Options.t) (ls rs : list Node) : list Node :=
  map snd
    (filter (fun jr =>
               negb (existsb (fun l => match first_match o l rs with
                                       | Some k => Nat.eqb k (fst jr)
                                       | None => false
                                       end) ls))
            (combine (seq 0 (List.length rs)) rs)).

(** Modelled from the spec: content comparison is enabled by a truthy
    [compareContent] (4.2, 6). *)
Definition content_enabled (o : Options.t) : bool :=
  match Options.compareContent o with Some true => true | _ => false end.

(** Modelled from the spec: relative path of an entry of the directory at
    [rel], to which the filters apply (4.3). *)
Definition rel_join (rel name : string) : string :=
  match rel with
  | EmptyString => name
  | _ => String.append rel (String.append "/" name)
  end.

Section Walker.

Variable path_join : string -> string -> string.

(** ContentEquivalence (4.2), as a capability: the verdict on the contents
    of two files under the options. *)
Variable equivalent : Options.t -> string -> string -> bool.

(** The include and exclude filters, as a capability: whether the relative
    path is considered under the options. *)
Variable visible : Options.t -> string -> bool.

(** Modelled from the spec: the Classifier (4.4) on a matched file pair;
    [equivalent] is consulted only when content comparison is enabled. *)
Definition classify (o : Options.t) (ca cb : string) : DifferenceState :=
  if negb (content_enabled o) then st_equal
  else if equivalent o ca cb then st_equal else st_distinct.

(** Modelled from the spec: the entry of a matched pair (3, 4.4). A matched
    directory pair carries no content verdict; dir-compare reports it with
    state equal. *)
Definition diff_matched (o : Options.t) (dA dB : string) (l r : Node)
  : Difference :=
  mkDifference (Some dA) (Some dB) (Some (node_name l)) (Some (node_name r))
    (match l, r with
     | File _ ca, File _ cb => classify o ca cb
     | _, _ => st_equal
     end)
    (node_type l) (node_type r).

(** Modelled from the spec: the entries of a left-only and of a right-only
    candidate (3). *)
Definition diff_left (dA : string) (l : Node) : Difference :=
  mkDifference (Some dA) None (Some (node_name l)) None
    st_left (node_type l) ty_missing.

Definition diff_right (dB : string) (r : Node) : Difference :=
  mkDifference None (Some dB) None (Some (node_name r))
    st_right ty_missing (node_type r).

(** Modelled from the spec: an entry that the filters leave visible
    (4.3). *)
Definition shown (o : Options.t) (rel : string) (n : Node) : bool :=
  visible o (rel_join rel (node_name n)).

(** Modelled from the spec: TreeWalker (4.3) over the children of the left
    directory [l] and the right listing [chB], the directories being
    [dA] and [dB] at relative path [rel]. Filtered entries are invisible;
    each left entry takes the first right counterpart; matched directories
    are entered; one-sided directories are single units; unmatched right
    entries follow. *)
Fixpoint walk (o : Options.t) (dA dB rel : string) (l : Node)
         (chB : list Node) {struct l} : list Difference :=
  match l with
  | File _ _ => []
  | Dir _ chA =>
      let visB := filter (shown o rel) chB in
      (fix level (ls : list Node) : list Difference :=
         match ls with
         | [] => []
         | l' :: ls' =>
             if shown o rel l' then
               match find (counterpart o l') visB with
               | Some r' =>
                   diff_matched o dA dB l' r'
                   :: walk o (path_join dA (node_name l'))
                        (path_join dB (node_name r'))
                        (rel_join rel (node_name l')) l' (node_children r')
                   ++ level ls'
               | None => diff_left dA l' :: level ls'
               end
             else level ls'
         end) chA
      ++ map (diff_right dB)
           (unmatched_right o (filter (shown o rel) chA) visB)
  end.

(** Modelled from the spec: [compare] on two roots whose listings are
    [treeA] and [treeB]. *)
Definition spec_compare (treeA treeB : list Node)
           (rootA rootB : string) (o : Options.t) : Outcome CompareOutput :=
  Returns (mkCompareOutput
             (Some (walk o rootA rootB EmptyString (Dir EmptyString treeA)
                         treeB))).

(** A run whose [compare] is the modelled walker over two given trees. *)
Definition spec_env (c : Config.t) (rootA rootB : string)
           (treeA treeB : list Node) : Env :=
  mkEnv (Returns (validate_configuration c)) (Returns (rootA, rootB)) c
        (spec_compare treeA treeB).

End Walker.

End SpecModel.

(** ** Array options at the consumer *)

(** The reading under which an unset filter would reach [compare] as a
    value that is not [undefined]. *)
Definition filters_never_undefined (c : Config.t) : Prop :=
  Options.excludeFilter (concatenatedOptions (getOptions c)) <> None /\
  Options.includeFilter (concatenatedOptions (getOptions c)) <> None.

(** ** Concrete runs *)

(** [path.join] on two non-empty normalised POSIX segments. *)
Definition posix_join (a b : string) : string :=
  String.append a (String.append "/" b).

(** The declared defaults of the settings. *)
Definition default_config : Config.t :=
  Config.mk (Some true) None None true (Some []) false false false false false.

Definition with_showIdentical (c : Config.t) (b : bool) : Config.t :=
  Config.mk (Config.compareContent c) (Config.excludeFilter c)
    (Config.includeFilter c) (Config.ignoreFileNameCase c)
    (Config.ignoreExtension c) (Config.ignoreWhiteSpaces c)
    (Config.ignoreAllWhiteSpaces c) (Config.ignoreEmptyLines c)
    (Config.ignoreLineEnding c) b.

Definition with_ignoreExtension (c : Config.t) (x : option (list (list string)))
  : Config.t :=
  Config.mk (Config.compareContent c) (Config.excludeFilter c)
    (Config.includeFilter c) (Config.ignoreFileNameCase c)
    x (Config.ignoreWhiteSpaces c)
    (Config.ignoreAllWhiteSpaces c) (Config.ignoreEmptyLines c)
    (Config.ignoreLineEnding c) (Config.showIdentical c).

Definition with_compareContent (c : Config.t) (x : option bool) : Config.t :=
  Config.mk x (Config.excludeFilter c)
    (Config.includeFilter c) (Config.ignoreFileNameCase c)
    (Config.ignoreExtension c) (Config.ignoreWhiteSpaces c)
    (Config.ignoreAllWhiteSpaces c) (Config.ignoreEmptyLines c)
    (Config.ignoreLineEnding c) (Config.showIdentical c).

(** A run on the roots [/l] and [/r] whose [compare] resolves with [ds]. *)
Definition env_with (c : Config.t) (ds : list Difference) : Env :=
  mkEnv (Returns true) (Returns ("/l", "/r")) c
        (fun _ _ _ => Returns (mkCompareOutput (Some ds))).

(** A run whose [compare] rejects. *)
Definition env_rejecting (c : Config.t) (reason : string) : Env :=
  mkEnv (Returns true) (Returns ("/l", "/r")) c
        (fun _ _ _ => Throws (Rejection reason)).

Definition matched_entry (st : DifferenceState) (ty : DifferenceType)
           (name : string) : Difference :=
  mkDifference (Some "/l") (Some "/r") (Some name) (Some name) st ty ty.

Definition left_entry (dir name : string) : Difference :=
  mkDifference (Some dir) None (Some name) None st_left ty_file ty_missing.

Definition right_entry (dir name : string) : Difference :=
  mkDifference None (Some dir) None (Some name) st_right ty_missing ty_file.

(** Scenario C: [index.js] on the left, [index.ts] on the right, with
    different bytes. *)
Definition scenario_left : list SpecModel.Node :=
  [SpecModel.File "index.js" "export const a = 1"].
Definition scenario_right : list SpecModel.Node :=
  [SpecModel.File "index.ts" "export const a: number = 1"].

Definition scenario_config (content showId : bool) : Config.t :=
  with_showIdentical
    (with_compareContent
       (with_ignoreExtension default_config (Some [["js"; "ts"]]))
       (Some content))
    showId.

(** Byte equality as the content verdict, and no filtering. *)
Definition bytes_equal (_ : Options.t) (a b : string) : bool := String.eqb a b.
Definition all_visible (_ : Options.t) (_ : string) : bool := true.

(** A run whose validation returns [false]. *)
Definition env_invalid (c : Config.t) : Env :=
  mkEnv (Returns false) (Returns ("/l", "/r")) c
        (fun _ _ _ => Returns (mkCompareOutput (Some []))).

(** A diff set with one entry of each kind the filters tell apart. *)
Definition sample_diffSet : list Difference :=
  [matched_entry st_equal ty_directory "lib";
   matched_entry st_equal ty_file "a.txt";
   matched_entry st_distinct ty_file "b.txt";
   left_entry "/l" "c.txt";
   right_entry "/r" "d.txt";
   mkDifference (Some "/l") None (Some "old") None
                st_left ty_directory ty_missing].

Definition sample_result (showId : bool) : CompareResult :=
  mkCompareResult [["/l/b.txt"; "/r/b.txt"]] [["/l/c.txt"]] [["/r/d.txt"]]
                  (if showId then [["/l/a.txt"]] else []) "/l" "/r".

(** Two declared pairs that share the extension [ts]. *)
Definition clashing_pairs : list (list string) :=
  [["js"; "ts"]; ["ts"; "tsx"]].

(** The right root [/a/b] is a directory of the left root [/a]. *)
Definition nested_left : list SpecModel.Node :=
  [SpecModel.Dir "b" [SpecModel.Dir "b" []; SpecModel.File "f" "x"]].
Definition nested_right : list SpecModel.Node :=
  [SpecModel.Dir "b" []; SpecModel.File "f" "x"].

(** ** The commands and dialogs around the session

    The remaining functions of [comparer.ts]: [getTitle], [showDiffs],
    [showFile] and [chooseFoldersAndCompare]. The host ([commands],
    [window], [openFolder], [pathContext.setPaths]) is seen through a
    trace of calls. *)

Inductive Uri : Type := Uri_file (fsPath : string).

(** [commands.executeCommand(id, ...args)] for the three ids used. *)
Inductive Command : Type :=
| diffMerge_compareSelected (main : Uri) (selected : list Uri)
| vscode_diff (l r : Uri) (title : string)
| vscode_open (u : Uri).

Inductive UiEvent : Type :=
| UiOpenFolder                    (* openFolder() *)
| UiSetPaths (a b : string)       (* pathContext.setPaths(a, b) *)
| UiExecuteCommand (c : Command)  (* commands.executeCommand *)
| UiWindowError (msg : string)    (* window.showErrorMessage *)
| UiSession (ev : Event).         (* a call made by compareFolders *)

(** Truthiness of a value that is a string or [undefined]. *)
Definition truthy_string (s : option string) : bool :=
  match s with
  | Some s' => negb (String.eqb s' "")
  | None => false
  end.

(** The template literal of the compared-path title. *)
Definition compared_path_title (path relativePath : string) : string :=
  String.append path (String.append " ↔ " relativePath).

(** [getTitle(path, relativePath, titleFormat)]; an [undefined]
    [titleFormat] takes the configured [diffViewTitle]. *)
Definition getTitle (diffViewTitle : string) (path relativePath : string)
           (titleFormat : option string) : string :=
  let titleFormat :=
    match titleFormat with Some f => f | None => diffViewTitle end in
  if String.eqb titleFormat "name only" then relativePath
  else if String.eqb titleFormat "compared path"
       then compared_path_title path relativePath
       else "".

(** What the view functions read: two settings, whether the Diff & Merge
    extension was found, and [compareIgnoredExtension] of
    ignoreExtensionTools. *)
Record View : Type := mkView {
  useDiffMerge : bool;
  diffViewTitle : string;
  diffMergeExtension : bool;
  compareIgnoredExtension : string -> string -> bool
}.

(** The message shown when Diff & Merge is asked for and not found; the
    name is quoted in the source. *)
Definition diffMerge_missing : string :=
  String.append "In order to use "
    (String "034"%char
       (String.append "Diff & Merge"
          (String "034"%char
             " extension you should install / enable it"))).

Definition showDiffs (v : View) (file1 file2 relativePath : string)
           (w : list UiEvent) : list UiEvent :=
  if useDiffMerge v then
    if diffMergeExtension v then
      w ++ [UiExecuteCommand
              (diffMerge_compareSelected (Uri_file file1)
                 [Uri_file file1; Uri_file file2])]
    else w ++ [UiWindowError diffMerge_missing]
  else
    w ++ [UiExecuteCommand
            (vscode_diff (Uri_file file1) (Uri_file file2)
               (getTitle (diffViewTitle v) file1 relativePath
                  (if compareIgnoredExtension v file1 file2
                   then Some "full path" else None)))].

Definition showFile (file : string) (w : list UiEvent) : list UiEvent :=
  w ++ [UiExecuteCommand (vscode_open (Uri_file file))].

(** The host of [chooseFoldersAndCompare]: what the n-th folder dialog
    resolves to ([None] is [undefined]), what [pathContext.getPaths()]
    gives once [setPaths(a, b)] was called, and the collaborators of the
    session (the [getPaths] field of [session] is not read). *)
Record Host : Type := mkHost {
  openFolder : nat -> Outcome (option string);
  getPaths_after : string -> string -> Outcome (string * string);
  session : Env
}.

Definition is_open (ev : UiEvent) : bool :=
  match ev with UiOpenFolder => true | _ => false end.

(** The number of folder dialogs opened so far. *)
Definition opened (w : list UiEvent) : nat :=
  List.length (filter is_open w).

Definition UI (A : Type) : Type := list UiEvent -> Outcome A * list UiEvent.

Definition ui_ret {A : Type} (a : A) : UI A := fun w => (Returns a, w).

Definition ui_bind {A B : Type} (m : UI A) (k : A -> UI B) : UI B :=
  fun w =>
    match m w with
    | (Returns a, w') => k a w'
    | (Throws e, w') => (Throws e, w')
    end.

Definition ui_emit (ev : UiEvent) : UI unit :=
  fun w => (Returns tt, w ++ [ev]).

(** [await openFolder()] *)
Definition open_dialog (h : Host) : UI (option string) :=
  fun w => (openFolder h (opened w), w ++ [UiOpenFolder]).

(** The collaborators of the session once the paths are set. *)
Definition session_after (h : Host) (a b : string) : Env :=
  mkEnv (validate (session h)) (getPaths_after h a b)
        (configuration (session h)) (compare (session h)).

Section Chooser.

Variable path_join : string -> string -> string.

(** [compareFolders()] called from the chooser: its calls join the
    trace. *)
Definition run_session (env : Env) : UI CompareResult :=
  fun w =>
    let (o, evs) := compareFolders path_join env [] in
    (o, w ++ map UiSession evs).

(** [chooseFoldersAndCompare(path)]; the result is [undefined] when a
    folder is missing. *)
Definition chooseFoldersAndCompare (h : Host) (path : option string)
  : UI (option CompareResult) :=
  ui_bind (if truthy_string path then ui_ret path else open_dialog h)
    (fun folder1Path =>
  ui_bind (open_dialog h)
    (fun folder2Path =>
  if negb (truthy_string folder1Path) || negb (truthy_string folder2Path)
  then ui_ret None
  else
    match folder1Path, folder2Path with
    | Some f1, Some f2 =>
        ui_bind (ui_emit (UiSetPaths f1 f2))
          (fun _ =>
        ui_bind (run_session (session_after h f1 f2))
          (fun r => ui_ret (Some r)))
    | _, _ => ui_ret None
    end)).

End Chooser.

(** ** Entries that the partitions can emit *)

Definition defined1 (d : Difference) : bool :=
  match path1 d, name1 d with Some _, Some _ => true | _, _ => false end.

Definition defined2 (d : Difference) : bool :=
  match path2 d, name2 d with Some _, Some _ => true | _, _ => false end.

(** The entry has the paths and names that the filters keeping it read. *)
Definition emittable (showIdentical : bool) (d : Difference) : bool :=
  (negb (is_distinct d) || (defined1 d && defined2 d))
  && (negb (is_left d) || defined1 d)
  && (negb (is_right d) || defined2 d)
  && (negb (showIdentical && is_identical d) || defined1 d).

Definition or_empty (s : option string) : string :=
  match s with Some s' => s' | None => "" end.

(** The entry is kept by one of the distinct, left and right filters. *)
Definition is_difference (d : Difference) : bool :=
  is_distinct d || is_left d || is_right d.

(** An event that reports an error. *)
Definition is_report (e : JsError) (ev : Event) : Prop :=
  exists msg, ev = EvLog msg e \/ ev = EvShowErrorMessage msg e.

Definition is_compare_call (ev : Event) : bool :=
  match ev with EvCompare _ _ _ => true | _ => false end.

Section ClosedForm.

Variable path_join : string -> string -> string.

Definition left_path (d : Difference) : string :=
  path_join (or_empty (path1 d)) (or_empty (name1 d)).

Definition right_path (d : Difference) : string :=
  path_join (or_empty (path2 d)) (or_empty (name2 d)).

(** The result of a run on a diff set whose kept entries are all
    emittable. *)
Definition result_of (showIdentical : bool) (ds : list Difference)
           (p : string * string) : CompareResult :=
  mkCompareResult
    (map (fun d => [left_path d; right_path d]) (filter is_distinct ds))
    (map (fun d => [left_path d]) (filter is_left ds))
    (map (fun d => [right_path d]) (filter is_right ds))
    (if showIdentical
     then map (fun d => [left_path d]) (filter is_identical ds)
     else [])
    (fst p) (snd p).

End ClosedForm.

(** A host whose dialogs resolve to the listed answers, then to
    [undefined], and whose path context returns what was set. *)
Definition host_of (answers : list (option string)) (env : Env) : Host :=
  mkHost (fun n => Returns (nth n answers None))
         (fun a b => Returns (a, b)) env.

Definition default_view : View :=
  mkView false "name only" false (fun _ _ => false).

Definition with_excludeFilter (c : Config.t) (x : option (list string))
  : Config.t :=
  Config.mk (Config.compareContent c) x
    (Config.includeFilter c) (Config.ignoreFileNameCase c)
    (Config.ignoreExtension c) (Config.ignoreWhiteSpaces c)
    (Config.ignoreAllWhiteSpaces c) (Config.ignoreEmptyLines c)
    (Config.ignoreLineEnding c) (Config.showIdentical c).

Definition with_includeFilter (c : Config.t) (x : option (list string))
  : Config.t :=
  Config.mk (Config.compareContent c) (Config.excludeFilter c)
    x (Config.ignoreFileNameCase c)
    (Config.ignoreExtension c) (Config.ignoreWhiteSpaces c)
    (Config.ignoreAllWhiteSpaces c) (Config.ignoreEmptyLines c)
    (Config.ignoreLineEnding c) (Config.showIdentical c).

(** A distinct entry whose right directory is missing. *)
Definition entry_without_path : Difference :=
  mkDifference (Some "/l") None (Some "a.txt") (Some "a.txt")
               st_distinct ty_file ty_file.

(** A run whose [compare] resolves without a [diffSet]. *)
Definition env_without_diffSet (c : Config.t) : Env :=
  mkEnv (Returns true) (Returns ("/l", "/r")) c
        (fun _ _ _ => Returns (mkCompareOutput None)).

(** A host whose dialogs reject. *)
Definition host_rejecting (reason : string) (env : Env) : Host :=
  mkHost (fun _ => Throws (Rejection reason)) (fun a b => Returns (a, b)) env.
(** * Properties of the session *)

(** ** General facts *)

Lemma js_or_zero_iff (a b : nat) : js_or a b = 0 <-> a = 0 /\ b = 0.
Proof.
  unfold js_or. destruct (Nat.eqb_spec a 0); lia.
Qed.

Lemma length_zero_nil {A : Type} (l : list A) : length l = 0 <-> l = [].
Proof.
  destruct l; simpl; split; intros H; try reflexivity; discriminate.
Qed.

Lemma array_map_Forall2 {A B : Type} (f : A -> Outcome B) (xs : list A)
      (ys : list B) :
  array_map f xs = Returns ys -> Forall2 (fun x y => f x = Returns y) xs ys.
Proof.
  revert ys. induction xs as [|x xs IH]; simpl; intros ys H.
  - injection H as <-. constructor.
  - destruct (f x) as [y|e] eqn:Hx; try discriminate.
    destruct (array_map f xs) as [ys'|e] eqn:Hxs; try discriminate.
    injection H as <-. constructor; auto.
Qed.

Lemma array_map_length {A B : Type} (f : A -> Outcome B) (xs : list A)
      (ys : list B) :
  array_map f xs = Returns ys -> length ys = length xs.
Proof.
  intros H. apply array_map_Forall2 in H.
  induction H; simpl; congruence.
Qed.

Lemma state_eqb_eq (a b : DifferenceState) : state_eqb a b = true <-> a = b.
Proof.
  destruct a, b; simpl; split; intros H; try reflexivity; discriminate.
Qed.

Lemma type_eqb_eq (a b : DifferenceType) : type_eqb a b = true <-> a = b.
Proof.
  destruct a, b; simpl; split; intros H; try reflexivity; discriminate.
Qed.

Section ComparerFacts.

Variable path_join : string -> string -> string.

Abbreviation run := (compareFolders path_join).
Abbreviation body := (try_block path_join).
Abbreviation parts := (partitions path_join).
Abbreviation completes := (completes path_join).
Abbreviation run_error := (run_error path_join).

Lemma body_rejected (env : Env) (w : World) :
  validate env = Returns false -> body env w = (Returns emptyResponse, w).
Proof.
  intros H. unfold try_block, bind, lift, ret. rewrite H. reflexivity.
Qed.

Lemma body_completes (env : Env) (w : World) ds r :
  completes env ds r ->
  exists p, getPaths env = Returns p /\
            body env w = (Returns r, w ++ [compare_call env p]).
Proof.
  intros [Hv (p & res & Hp & Hc & Hds & Hparts)].
  exists p. split; [exact Hp|].
  unfold try_block, bind, lift, ret, call_compare. rewrite Hv, Hp. simpl.
  unfold compare_result in Hc. rewrite Hc.
  rewrite <- Hds, Hparts. reflexivity.
Qed.

Lemma body_throws (env : Env) (w : World) (e : JsError) :
  run_error env e ->
  exists w', body env w = (Throws e, w') /\
             (w' = w \/ exists p, getPaths env = Returns p /\
                                  w' = w ++ [compare_call env p]).
Proof.
  unfold run_error, compare_result, try_block, bind, lift, ret, call_compare.
  intros [Hv | [[Hv Hp] | [[Hv (p & Hp & Hc)] | [Hv (p & res & Hp & Hc & Hx)]]]];
    rewrite Hv; simpl.
  - exists w. auto.
  - rewrite Hp. exists w. auto.
  - rewrite Hp, Hc. eexists. split; [reflexivity|]. right. exists p. auto.
  - rewrite Hp, Hc. rewrite Hx.
    eexists. split; [reflexivity|]. right. exists p. auto.
Qed.

(** The body of the [try] block ends in exactly one of three ways. *)
Lemma body_cases (env : Env) (w : World) :
  (validate env = Returns false /\ body env w = (Returns emptyResponse, w)) \/
  (exists ds r p, completes env ds r /\ getPaths env = Returns p /\
                  body env w = (Returns r, w ++ [compare_call env p])) \/
  (exists e w', run_error env e /\ body env w = (Throws e, w')).
Proof.
  destruct (validate env) as [[|]|e] eqn:Hv.
  - destruct (getPaths env) as [p|e] eqn:Hp.
    + destruct (compare_result env p) as [res|e] eqn:Hc.
      * destruct (parts (Config.showIdentical (configuration env))
                        (diffSet_or_empty res) (fst p) (snd p)) as [r|e] eqn:Hx.
        -- right; left. exists (diffSet_or_empty res), r, p.
           assert (Hc' : completes env (diffSet_or_empty res) r).
           { split; [exact Hv|]. exists p, res. auto. }
           split; [exact Hc'|]. split; [congruence|].
           destruct (body_completes env w _ _ Hc') as (p' & Hp' & Hb).
           rewrite Hp in Hp'. injection Hp' as <-. exact Hb.
        -- right; right.
           assert (He : run_error env e).
           { right; right; right. split; [exact Hv|]. exists p, res. auto. }
           destruct (body_throws env w e He) as (w' & Hb & _). eauto.
      * right; right.
        assert (He : run_error env e).
        { right; right; left. split; [exact Hv|]. exists p. auto. }
        destruct (body_throws env w e He) as (w' & Hb & _). eauto.
    + right; right.
      assert (He : run_error env e) by (right; left; auto).
      destruct (body_throws env w e He) as (w' & Hb & _). eauto.
  - left. split; [reflexivity|]. apply body_rejected. exact Hv.
  - right; right.
    assert (He : run_error env e) by (left; auto).
    destruct (body_throws env w e He) as (w' & Hb & _). eauto.
Qed.

Lemma run_of_body_returns (env : Env) (w w' : World) r :
  body env w = (Returns r, w') -> run env w = (Returns r, w').
Proof.
  intros H. unfold compareFolders, try_catch. rewrite H. reflexivity.
Qed.

Lemma run_of_body_throws (env : Env) (w w' : World) e :
  body env w = (Throws e, w') ->
  run env w = (Returns emptyResponse, w' ++ error_events e).
Proof.
  intros H. unfold compareFolders, try_catch. rewrite H.
  unfold catch_block, bind, emit, ret, error_events.
  rewrite <- app_assoc. reflexivity.
Qed.

(** [compareFolders] never throws: it returns the empty response or the
    partitions of a run that completed. *)
Lemma run_cases (env : Env) (w : World) :
  exists r w', run env w = (Returns r, w') /\
               (r = emptyResponse \/ exists ds, completes env ds r).
Proof.
  destruct (body_cases env w)
    as [[_ Hb] | [(ds & r & p & Hc & _ & Hb) | (e & w' & _ & Hb)]].
  - eexists _, _. split; [apply run_of_body_returns; exact Hb|]. auto.
  - eexists _, _. split; [apply run_of_body_returns; exact Hb|]. eauto.
  - eexists _, _. split; [apply run_of_body_throws; exact Hb|]. auto.
Qed.

Lemma run_inv (env : Env) (w w' : World) (r : CompareResult) :
  run env w = (Returns r, w') ->
  r = emptyResponse \/ exists ds, completes env ds r.
Proof.
  intros H. destruct (run_cases env w) as (r0 & w0 & H0 & Hr).
  rewrite H in H0. injection H0 as <- <-. exact Hr.
Qed.

(** What a completed run put in the result. *)
Lemma parts_inv (si : bool) ds f1 f2 r :
  parts si ds f1 f2 = Returns r ->
  array_map (pair_of path_join) (filter is_distinct ds) = Returns (distinct r) /\
  array_map (single1 path_join) (filter is_left ds) = Returns (left r) /\
  array_map (single2 path_join) (filter is_right ds) = Returns (right r) /\
  (if si then array_map (single1 path_join) (filter is_identical ds)
   else Returns []) = Returns (identicals r) /\
  leftPath r = f1 /\ rightPath r = f2.
Proof.
  unfold partitions.
  destruct (array_map (pair_of path_join) _) as [d|]; try discriminate.
  destruct (array_map (single1 path_join) (filter is_left ds)) as [l|];
    try discriminate.
  destruct (array_map (single2 path_join) _) as [r'|]; try discriminate.
  destruct (if si then _ else _) as [i|]; try discriminate.
  intros H. injection H as <-. simpl. auto 10.
Qed.

End ComparerFacts.

(** ** Validation *)

Lemma mem_ext_In (e : string) (p : list string) :
  mem_ext e p = true <-> In e p.
Proof.
  unfold mem_ext. rewrite existsb_exists. split.
  - intros (x & Hx & Heq). apply String.eqb_eq in Heq. subst. exact Hx.
  - intros H. exists e. split; [exact H | apply String.eqb_refl].
Qed.

(** Accepted pairs share no extension. *)
Lemma validate_pairs_sound (pairs : list (list string)) :
  validate_pairs pairs = true ->
  forall i j p q e,
    i < j -> nth_error pairs i = Some p -> nth_error pairs j = Some q ->
    In e p -> In e q -> False.
Proof.
  induction pairs as [|p0 rest IH]; simpl; intros Hv i j p q e Hij Hi Hj Hp Hq.
  - destruct i; discriminate.
  - apply andb_true_iff in Hv. destruct Hv as [Hhead Hrest].
    destruct j as [|j]; [lia|]. simpl in Hj.
    destruct i as [|i]; simpl in Hi.
    + injection Hi as <-.
      rewrite forallb_forall in Hhead. specialize (Hhead e Hp).
      apply negb_true_iff in Hhead.
      assert (Hex : existsb (mem_ext e) rest = true).
      { apply existsb_exists. exists q. split.
        - eapply nth_error_In; eauto.
        - apply mem_ext_In. exact Hq. }
      congruence.
    + apply (IH Hrest i j p q e); auto. lia.
Qed.

Lemma in_two_pairs_rejected (e : string) (pairs : list (list string)) :
  in_two_pairs e pairs -> validate_pairs pairs = false.
Proof.
  intros (i & j & p & q & Hij & Hi & Hj & Hp & Hq).
  destruct (validate_pairs pairs) eqn:Hv; [exfalso|reflexivity].
  destruct (Nat.lt_total i j) as [Hlt | [Heq | Hgt]].
  - exact (validate_pairs_sound pairs Hv i j p q e Hlt Hi Hj Hp Hq).
  - contradiction.
  - exact (validate_pairs_sound pairs Hv j i q p e Hgt Hj Hi Hq Hp).
Qed.

(** ** Selection by the filters *)








Section Shapes.

Variable path_join : string -> string -> string.



(** The entries behind the left, right and identicals partitions are
    files. *)
Lemma one_sided_and_identical_entries_are_files (ds : list Difference) :
  (forall d, In d (filter is_left ds) -> type1 d = ty_file) /\
  (forall d, In d (filter is_right ds) -> type2 d = ty_file) /\
  (forall d, In d (filter is_identical ds) -> type1 d = ty_file).
Proof.
  repeat split; intros d Hd; apply filter_In in Hd; destruct Hd as [_ Hd];
    unfold is_left, is_right, is_identical in Hd;
    apply andb_true_iff in Hd; destruct Hd as [_ Hd];
    apply type_eqb_eq; exact Hd.
Qed.

End Shapes.

(** ** The modelled walker with content comparison off *)

Lemma Node_nested_ind (P : SpecModel.Node -> Prop) :
  (forall n c, P (SpecModel.File n c)) ->
  (forall n ch, Forall P ch -> P (SpecModel.Dir n ch)) ->
  forall t, P t.
Proof.
  intros HF HD. fix IH 1. intros [n c | n ch].
  - apply HF.
  - apply HD. induction ch as [|a ch' IHch]; constructor.
    + apply IH.
    + exact IHch.
Qed.

Lemma filter_none {A : Type} (f : A -> bool) (xs : list A) :
  Forall (fun x => f x = false) xs -> filter f xs = [].
Proof.
  induction 1 as [|x xs Hx _ IH]; simpl; [reflexivity|].
  rewrite Hx. exact IH.
Qed.

Lemma presence_only_not_distinct (d : Difference) :
  presence_only d -> is_distinct d = false.
Proof.
  unfold presence_only, is_distinct.
  intros [H | [[H _] | [H _]]]; rewrite H; reflexivity.
Qed.

Lemma content_off_options (c : Config.t) :
  Config.compareContent c = Some false ->
  SpecModel.content_enabled (concatenatedOptions (getOptions c)) = false.
Proof.
  intros H. unfold SpecModel.content_enabled. simpl. rewrite H. reflexivity.
Qed.

Section WalkerFacts.

Variable path_join : string -> string -> string.
Variable visible : Options.t -> string -> bool.

Lemma diff_matched_content_off eq1 eq2 (o : Options.t) dA dB l r :
  SpecModel.content_enabled o = false ->
  SpecModel.diff_matched eq1 o dA dB l r
  = SpecModel.diff_matched eq2 o dA dB l r /\
  presence_only (SpecModel.diff_matched eq1 o dA dB l r).
Proof.
  intros Hoff. unfold SpecModel.diff_matched, SpecModel.classify.
  rewrite Hoff. simpl. split; [reflexivity|].
  left. simpl. destruct l, r; reflexivity.
Qed.

(** With content comparison off the walk does not depend on the content
    verdicts, and every entry it reports is classified by presence. *)
Lemma walk_content_off eq1 eq2 (o : Options.t) :
  SpecModel.content_enabled o = false ->
  forall l dA dB rel chB,
    SpecModel.walk path_join eq1 visible o dA dB rel l chB
    = SpecModel.walk path_join eq2 visible o dA dB rel l chB /\
    Forall presence_only
           (SpecModel.walk path_join eq1 visible o dA dB rel l chB).
Proof.
  intros Hoff l.
  induction l as [n c | n ch IHch] using Node_nested_ind;
    intros dA dB rel chB; simpl.
  - split; [reflexivity | constructor].
  - set (visB := filter (SpecModel.shown visible o rel) chB).
    set (rights := map (SpecModel.diff_right dB) _).
    assert (Hrights : Forall presence_only rights).
    { unfold rights. apply Forall_forall. intros d Hd.
      apply in_map_iff in Hd. destruct Hd as (r & <- & _).
      right; right. split; reflexivity. }
    clearbody rights visB.
    induction IHch as [|l' ls' Hl' _ IH].
    + split; [reflexivity | exact Hrights].
    + destruct (SpecModel.shown visible o rel l'); [|exact IH].
      destruct (find (SpecModel.counterpart o l') visB) as [r'|].
      * destruct (diff_matched_content_off eq1 eq2 o dA dB l' r' Hoff)
          as [Hm Hp].
        destruct (Hl' (path_join dA (SpecModel.node_name l'))
                      (path_join dB (SpecModel.node_name r'))
                      (SpecModel.rel_join rel (SpecModel.node_name l'))
                      (SpecModel.node_children r')) as [Hw Hf].
        destruct IH as [IHe IHf].
        split.
        -- rewrite Hm, Hw. simpl. f_equal. rewrite <- !app_assoc.
           f_equal. exact IHe.
        -- simpl. constructor; [exact Hp|].
           rewrite <- app_assoc. apply Forall_app. split; assumption.
      * destruct IH as [IHe IHf]. split.
        -- simpl. f_equal. exact IHe.
        -- simpl. constructor; [|exact IHf].
           right; left. split; reflexivity.
Qed.

End WalkerFacts.

(** * The claims *)

Section Session.

Variable path_join : string -> string -> string.

Abbreviation run := (compareFolders path_join).
Abbreviation completes := (completes path_join).
Abbreviation run_error := (run_error path_join).

(** C2. An error thrown during the run (by validation, the path context,
    the walk of [compare], or the classification into partitions) is caught
    by [compareFolders]: the run logs it, shows it as an error message, and
    returns the empty response, with all four partitions empty. The trace
    grows by the call to [compare], if it was reached, and the two
    reports. *)
Theorem errors_caught_logged_surfaced (env : Env) (w : World) (e : JsError) :
  run_error env e ->
  exists w',
    run env w = (Returns emptyResponse, w' ++ error_events e) /\
    (w' = w \/
     exists p, getPaths env = Returns p /\ w' = w ++ [compare_call env p]).
Proof.
  intros He.
  destruct (body_throws path_join env w e He) as (w' & Hb & Hw).
  exists w'. split; [|exact Hw].
  apply run_of_body_throws. exact Hb.
Qed.

(** C10. When validation fails or an error is caught, the result returned
    by [compareFolders] is the empty response, whose [leftPath] and
    [rightPath] are the empty string, whatever the folder paths of the run
    are. *)
Theorem empty_response_has_empty_paths (env : Env) (w : World) :
  validate env = Returns false \/ (exists e, run_error env e) ->
  exists r w',
    run env w = (Returns r, w') /\
    leftPath r = "" /\ rightPath r = "" /\
    distinct r = [] /\ left r = [] /\ right r = [] /\ identicals r = [].
Proof.
  intros [Hv | [e He]].
  - exists emptyResponse, w. split; [|simpl; auto 10].
    apply run_of_body_returns, body_rejected, Hv.
  - destruct (body_throws path_join env w e He) as (w' & Hb & _).
    exists emptyResponse, (w' ++ error_events e). split; [|simpl; auto 10].
    apply run_of_body_throws, Hb.
Qed.

(** C4. The identicals partition of a returned result is empty when
    [showIdentical] is off, so it is non-empty only when the option is on;
    when the option is on and the run completed on the diff set [ds], the
    partition lists, in order, the left path of exactly the entries of
    [ds] that [compare] reported equal and whose left type is file. *)
Theorem identicals_only_when_shown (env : Env) (w w' : World)
        (r : CompareResult) :
  run env w = (Returns r, w') ->
  (Config.showIdentical (configuration env) = false -> identicals r = []) /\
  (identicals r <> [] -> Config.showIdentical (configuration env) = true) /\
  (Config.showIdentical (configuration env) = true ->
   forall ds, completes env ds r ->
     Forall2 (fun d x => single1 path_join d = Returns x)
             (filter is_identical ds) (identicals r) /\
     forall d, In d (filter is_identical ds) <->
               In d ds /\ state d = st_equal /\ type1 d = ty_file).
Proof.
  intros Hrun.
  assert (Hoff : Config.showIdentical (configuration env) = false ->
                 identicals r = []).
  { intros Hsi. destruct (run_inv path_join env w w' r Hrun) as [-> | [ds Hc]].
    - reflexivity.
    - destruct Hc as [_ (p & res & _ & _ & _ & Hparts)].
      apply parts_inv in Hparts. destruct Hparts as (_ & _ & _ & Hi & _).
      rewrite Hsi in Hi. injection Hi as <-. reflexivity. }
  split; [exact Hoff|]. split.
  - intros Hne. destruct (Config.showIdentical (configuration env));
      [reflexivity|].
    exfalso. apply Hne, Hoff. reflexivity.
  - intros Hsi ds [_ (p & res & _ & _ & _ & Hparts)].
    apply parts_inv in Hparts. destruct Hparts as (_ & _ & _ & Hi & _).
    rewrite Hsi in Hi. split.
    + apply array_map_Forall2. exact Hi.
    + intros d. rewrite filter_In. unfold is_identical.
      rewrite andb_true_iff, state_eqb_eq, type_eqb_eq. tauto.
Qed.

(** C3. When an extension appears in two declared pairs, validation (as
    the spec describes it) fails and [compareFolders] returns the empty
    response with the trace unchanged: [compare] is not called, so no tree
    is walked and no file is read. *)
Theorem invalid_pairs_return_before_walk (env : Env) (w : World)
        (pairs : list (list string)) (e : string) :
  Config.ignoreExtension (configuration env) = Some pairs ->
  in_two_pairs e pairs ->
  validate env = Returns (validate_configuration (configuration env)) ->
  run env w = (Returns emptyResponse, w).
Proof.
  intros Hcfg Htwo Hv.
  apply run_of_body_returns, body_rejected.
  rewrite Hv. unfold validate_configuration. rewrite Hcfg.
  f_equal. apply in_two_pairs_rejected with (e := e). exact Htwo.
Qed.

End Session.


(** Disjointness is per entry: two entries that resolve to one path give
    the same single in two partitions. Over the walker of the spec, when
    the right root is a directory of the left root, the file [/a/b/f] is
    left-only at [b/f] and right-only at [f]. *)
Example nested_roots_share_a_path :
  fst (compareFolders posix_join
         (SpecModel.spec_env posix_join bytes_equal all_visible
            default_config "/a" "/a/b" nested_left nested_right) [])
  = Returns (mkCompareResult [] [["/a/b/f"]] [["/a/b/f"]] [] "/a" "/a/b").
Proof. reflexivity. Qed.

(** C5, evaluated where it fails: the distinct filter looks at the state
    only, so a directory pair and a broken-link pair that [compare] reports
    distinct are emitted into the distinct partition. *)
Theorem distinct_keeps_non_file_entries :
  fst (compareFolders posix_join
         (env_with default_config
            [matched_entry st_distinct ty_directory "sub";
             matched_entry st_distinct ty_broken_link "link";
             matched_entry st_equal ty_directory "lib"]) [])
  = Returns (mkCompareResult
               [["/l/sub"; "/r/sub"]; ["/l/link"; "/r/link"]] [] [] []
               "/l" "/r").
Proof. reflexivity. Qed.

(** C7, as amended. [getOptions] never dereferences an unset filter: an
    unset [excludeFilter] or [includeFilter] reaches [compare] as
    [undefined], a set one as its elements joined by commas, and
    [ignoreExtension] unchanged, with the name handler installed exactly
    when it is set. *)
Theorem unset_filters_stay_undefined (c : Config.t) :
  let o := concatenatedOptions (getOptions c) in
  Options.excludeFilter o = option_map (array_join ",") (Config.excludeFilter c) /\
  Options.includeFilter o = option_map (array_join ",") (Config.includeFilter c) /\
  (Options.excludeFilter o = None <-> Config.excludeFilter c = None) /\
  (Options.includeFilter o = None <-> Config.includeFilter c = None) /\
  Options.ignoreExtension o = Config.ignoreExtension c /\
  Options.compareNameHandler o
  = option_map (fun _ => compareName) (Config.ignoreExtension c).
Proof.
  unfold concatenatedOptions, getOptions. simpl.
  destruct (Config.excludeFilter c), (Config.includeFilter c),
    (Config.ignoreExtension c); simpl;
    repeat split; intros; try reflexivity; discriminate.
Qed.

(** C7, the run that refutes it as stated: with both filters unset,
    [compare] is called with [excludeFilter] and [includeFilter] undefined,
    not with empty sequences. *)
Lemma unset_filter_reaches_compare_undefined :
  let o := concatenatedOptions (getOptions default_config) in
  Config.excludeFilter default_config = None /\
  Config.includeFilter default_config = None /\
  snd (compareFolders posix_join (env_with default_config []) [])
  = [EvCompare "/l" "/r" o] /\
  Options.excludeFilter o = None /\
  Options.includeFilter o = None /\
  ~ (forall c, filters_never_undefined c).
Proof.
  cbv zeta. repeat split.
  intros H. destruct (H default_config) as [H1 _]. apply H1. reflexivity.
Qed.

(** C9. [hasResult()] is truthy exactly when one of the distinct, left and
    right partitions is non-empty; the identicals partition does not count,
    so a result with only identicals gives a falsy value (zero). *)
Theorem hasResult_truthy_iff (r : CompareResult) :
  (truthy (hasResult r) = true <->
   distinct r <> [] \/ left r <> [] \/ right r <> []) /\
  (forall ids lp rp,
     hasResult (mkCompareResult [] [] [] ids lp rp) = 0 /\
     truthy (hasResult (mkCompareResult [] [] [] ids lp rp)) = false).
Proof.
  split.
  - unfold truthy, hasResult, js_or.
    destruct (distinct r), (left r), (right r); simpl; split; intros H;
      try reflexivity; try discriminate;
      try solve [left; discriminate | right; left; discriminate
                 | right; right; discriminate].
    destruct H as [H | [H | H]]; exfalso; apply H; reflexivity.
  - intros ids lp rp. split; reflexivity.
Qed.

(** C6. With [compareContent] off in the configuration, the options handed
    to [compare] have it off; over the walker and classifier of the spec
    the run is then the same whatever the content verdicts are (none is
    consulted), every entry with both sides present is reported equal, the
    distinct partition is empty, and a matched file pair is kept by the
    identicals filter. In Scenario C, [index.js] and [index.ts] with
    different bytes and the pair [js, ts] end in the identicals
    partition. *)
Theorem presence_only_when_content_off
        (path_join : string -> string -> string)
        (eq1 eq2 : Options.t -> string -> string -> bool)
        (visible : Options.t -> string -> bool)
        (c : Config.t) (rootA rootB : string)
        (treeA treeB : list SpecModel.Node) (w : World) :
  Config.compareContent c = Some false ->
  let o := concatenatedOptions (getOptions c) in
  let env1 := SpecModel.spec_env path_join eq1 visible c rootA rootB treeA treeB in
  let env2 := SpecModel.spec_env path_join eq2 visible c rootA rootB treeA treeB in
  let ds := SpecModel.walk path_join eq1 visible o rootA rootB ""
              (SpecModel.Dir "" treeA) treeB in
  Options.compareContent o = Some false /\
  compareFolders path_join env1 w = compareFolders path_join env2 w /\
  (forall d, In d ds ->
     state d <> st_distinct /\
     (type1 d = ty_file -> type2 d = ty_file ->
      state d = st_equal /\ is_identical d = true)) /\
  (forall r w', compareFolders path_join env1 w = (Returns r, w') ->
                distinct r = []) /\
  fst (compareFolders posix_join
         (SpecModel.spec_env posix_join bytes_equal all_visible
            (scenario_config false true) "/L" "/R"
            scenario_left scenario_right) [])
  = Returns (mkCompareResult [] [] [] [["/L/index.js"]] "/L" "/R").
Proof.
  intros Hc o env1 env2 ds.
  pose proof (content_off_options c Hc) as Hoff. fold o in Hoff.
  assert (Hwalk : forall eq,
             SpecModel.walk path_join eq visible o rootA rootB ""
               (SpecModel.Dir "" treeA) treeB = ds).
  { intros eq. apply (walk_content_off path_join visible eq eq1 o Hoff). }
  assert (Hpres : Forall presence_only ds).
  { apply (walk_content_off path_join visible eq1 eq1 o Hoff). }
  rewrite Forall_forall in Hpres.
  split; [simpl; exact Hc|]. split; [|split; [|split]].
  - unfold compareFolders, try_catch, try_block, bind, lift, ret, call_compare.
    cbn -[SpecModel.walk concatenatedOptions getOptions].
    destruct (validate_configuration c); cbn -[SpecModel.walk concatenatedOptions getOptions];
      [|reflexivity].
    fold o. rewrite !Hwalk. reflexivity.
  - intros d Hd. specialize (Hpres d Hd). split.
    + intros Hs. apply presence_only_not_distinct in Hpres.
      unfold is_distinct in Hpres. rewrite Hs in Hpres. discriminate.
    + intros H1 H2. destruct Hpres as [Hs | [[_ Hm] | [_ Hm]]];
        try congruence.
      split; [exact Hs|]. unfold is_identical. rewrite Hs, H1. reflexivity.
  - intros r w' Hrun.
    destruct (run_inv path_join env1 w w' r Hrun) as [-> | [ds' Hdone]];
      [reflexivity|].
    destruct Hdone as [_ (p & res & Hp & Hres & Hds & Hparts)].
    cbn in Hp. injection Hp as <-.
    unfold compare_result in Hres.
    cbn -[SpecModel.walk concatenatedOptions getOptions] in Hres.
    unfold SpecModel.spec_compare in Hres. fold o in Hres.
    rewrite Hwalk in Hres. injection Hres as <-.
    unfold diffSet_or_empty in Hds. cbn [diffSet] in Hds. subst ds'.
    apply parts_inv in Hparts. destruct Hparts as (Hd & _).
    rewrite filter_none in Hd.
    + simpl in Hd. injection Hd as <-. reflexivity.
    + apply Forall_forall. intros d Hd'.
      apply presence_only_not_distinct, Hpres, Hd'.
  - reflexivity.
Qed.

(** * The theorems at concrete runs *)

Lemma errors_caught_logged_surfaced_witness :
  let env := env_rejecting default_config "EACCES" in
  run_error posix_join env (Rejection "EACCES") /\
  exists w',
    compareFolders posix_join env []
    = (Returns emptyResponse, w' ++ error_events (Rejection "EACCES")) /\
    (w' = [] \/
     exists p, getPaths env = Returns p /\ w' = [] ++ [compare_call env p]).
Proof.
  cbv zeta.
  assert (H : run_error posix_join (env_rejecting default_config "EACCES")
                        (Rejection "EACCES")).
  { right; right; left. split; [reflexivity|].
    exists ("/l", "/r"). split; reflexivity. }
  split; [exact H|].
  exact (errors_caught_logged_surfaced posix_join _ [] _ H).
Defined.

Lemma empty_response_has_empty_paths_witness :
  let env := env_invalid default_config in
  (validate env = Returns false \/ (exists e, run_error posix_join env e)) /\
  getPaths env = Returns ("/l", "/r") /\
  exists r w',
    compareFolders posix_join env [] = (Returns r, w') /\
    leftPath r = "" /\ rightPath r = "" /\
    distinct r = [] /\ left r = [] /\ right r = [] /\ identicals r = [].
Proof.
  cbv zeta.
  assert (H : validate (env_invalid default_config) = Returns false \/
              (exists e, run_error posix_join (env_invalid default_config) e)).
  { left. reflexivity. }
  split; [exact H|]. split; [reflexivity|].
  exact (empty_response_has_empty_paths posix_join _ [] H).
Defined.

Lemma identicals_only_when_shown_witness :
  let env := env_with (with_showIdentical default_config true) sample_diffSet in
  let r := sample_result true in
  let w' := [compare_call env ("/l", "/r")] in
  compareFolders posix_join env [] = (Returns r, w') /\
  (Config.showIdentical (configuration env) = false -> identicals r = []) /\
  (identicals r <> [] -> Config.showIdentical (configuration env) = true) /\
  (Config.showIdentical (configuration env) = true ->
   forall ds, completes posix_join env ds r ->
     Forall2 (fun d x => single1 posix_join d = Returns x)
             (filter is_identical ds) (identicals r) /\
     forall d, In d (filter is_identical ds) <->
               In d ds /\ state d = st_equal /\ type1 d = ty_file).
Proof.
  cbv zeta.
  assert (H : compareFolders posix_join
                (env_with (with_showIdentical default_config true)
                          sample_diffSet) []
              = (Returns (sample_result true),
                 [compare_call (env_with (with_showIdentical default_config true)
                                         sample_diffSet) ("/l", "/r")])).
  { reflexivity. }
  split; [exact H|].
  exact (identicals_only_when_shown posix_join _ _ _ _ H).
Defined.

Lemma invalid_pairs_return_before_walk_witness :
  let c := with_ignoreExtension default_config (Some clashing_pairs) in
  let env := SpecModel.spec_env posix_join bytes_equal all_visible c
               "/l" "/r" scenario_left scenario_right in
  Config.ignoreExtension (configuration env) = Some clashing_pairs /\
  in_two_pairs "ts" clashing_pairs /\
  validate env = Returns (validate_configuration (configuration env)) /\
  compareFolders posix_join env [] = (Returns emptyResponse, []).
Proof.
  cbv zeta.
  assert (H : in_two_pairs "ts" clashing_pairs).
  { exists 0, 1, ["js"; "ts"], ["ts"; "tsx"].
    split; [lia|]. split; [reflexivity|]. split; [reflexivity|].
    split; simpl; auto. }
  split; [reflexivity|]. split; [exact H|]. split; [reflexivity|].
  exact (invalid_pairs_return_before_walk posix_join
           (SpecModel.spec_env posix_join bytes_equal all_visible
              (with_ignoreExtension default_config (Some clashing_pairs))
              "/l" "/r" scenario_left scenario_right)
           [] clashing_pairs "ts" eq_refl H eq_refl).
Defined.


Lemma presence_only_when_content_off_witness :
  let c := scenario_config false true in
  let env1 := SpecModel.spec_env posix_join bytes_equal all_visible c
                "/L" "/R" scenario_left scenario_right in
  let env2 := SpecModel.spec_env posix_join (fun _ _ _ => true) all_visible c
                "/L" "/R" scenario_left scenario_right in
  Config.compareContent c = Some false /\
  Options.compareContent (concatenatedOptions (getOptions c)) = Some false /\
  compareFolders posix_join env1 [] = compareFolders posix_join env2 [] /\
  (forall r w', compareFolders posix_join env1 [] = (Returns r, w') ->
                distinct r = []).
Proof.
  cbv zeta.
  pose proof (presence_only_when_content_off posix_join bytes_equal
                (fun _ _ _ => true) all_visible (scenario_config false true)
                "/L" "/R" scenario_left scenario_right [] eq_refl) as H.
  cbv zeta in H. destruct H as (H1 & H2 & _ & H4 & _).
  split; [reflexivity|]. split; [exact H1|]. split; [exact H2|exact H4].
Defined.

(** * Further properties of [comparer.ts] *)

(** ** Helper facts *)

Lemma array_map_total {A B : Type} (f : A -> Outcome B) (g : A -> B)
      (ok : A -> bool) (err : JsError) (xs : list A) :
  (forall x, f x = if ok x then Returns (g x) else Throws err) ->
  array_map f xs = if forallb ok xs then Returns (map g xs) else Throws err.
Proof.
  intros Hf. induction xs as [|x xs IH]; simpl; [reflexivity|].
  rewrite Hf. destruct (ok x); simpl; [|reflexivity].
  rewrite IH. destruct (forallb ok xs); reflexivity.
Qed.

Lemma forallb_filter {A : Type} (p ok : A -> bool) (xs : list A) :
  forallb ok (filter p xs) = forallb (fun x => negb (p x) || ok x) xs.
Proof.
  induction xs as [|x xs IH]; simpl; [reflexivity|].
  destruct (p x); simpl; rewrite IH; reflexivity.
Qed.

Lemma forallb_andb {A : Type} (a b : A -> bool) (xs : list A) :
  forallb (fun x => a x && b x) xs = forallb a xs && forallb b xs.
Proof.
  induction xs as [|x xs IH]; simpl; [reflexivity|].
  rewrite IH. destruct (a x), (b x), (forallb a xs), (forallb b xs);
    reflexivity.
Qed.

Lemma filter_length_zero_existsb {A : Type} (p : A -> bool) (xs : list A) :
  List.length (filter p xs) = 0 <-> existsb p xs = false.
Proof.
  induction xs as [|x xs IH]; simpl; [tauto|].
  destruct (p x); simpl; [split; discriminate | exact IH].
Qed.

Section SessionFacts.

Variable path_join : string -> string -> string.

Abbreviation run := (compareFolders path_join).
Abbreviation completes := (completes path_join).
Abbreviation run_error := (run_error path_join).

Lemma join_cases (a b : option string) :
  join path_join a b
  = match a, b with
    | Some _, Some _ => Returns (path_join (or_empty a) (or_empty b))
    | _, _ => Throws ERR_INVALID_ARG_TYPE
    end.
Proof. destruct a, b; reflexivity. Qed.

Lemma single1_cases (d : Difference) :
  single1 path_join d
  = if defined1 d then Returns [left_path path_join d]
    else Throws ERR_INVALID_ARG_TYPE.
Proof.
  unfold single1, defined1, left_path. rewrite join_cases.
  destruct (path1 d), (name1 d); reflexivity.
Qed.

Lemma single2_cases (d : Difference) :
  single2 path_join d
  = if defined2 d then Returns [right_path path_join d]
    else Throws ERR_INVALID_ARG_TYPE.
Proof.
  unfold single2, defined2, right_path. rewrite join_cases.
  destruct (path2 d), (name2 d); reflexivity.
Qed.

Lemma pair_of_cases (d : Difference) :
  pair_of path_join d
  = if defined1 d && defined2 d
    then Returns [left_path path_join d; right_path path_join d]
    else Throws ERR_INVALID_ARG_TYPE.
Proof.
  unfold pair_of, defined1, defined2, left_path, right_path.
  rewrite !join_cases.
  destruct (path1 d), (name1 d), (path2 d), (name2 d); reflexivity.
Qed.

(** The partitions are built exactly when every kept entry is emittable;
    the only error of the classification is the one of [path.join]. *)
Lemma partitions_by_cases (si : bool) (ds : list Difference)
      (p : string * string) :
  partitions path_join si ds (fst p) (snd p)
  = if forallb (emittable si) ds
    then Returns (result_of path_join si ds p)
    else Throws ERR_INVALID_ARG_TYPE.
Proof.
  unfold partitions, result_of.
  rewrite (array_map_total _ _ _ ERR_INVALID_ARG_TYPE _ pair_of_cases).
  rewrite (array_map_total _ _ _ ERR_INVALID_ARG_TYPE
             (filter is_left ds) single1_cases).
  rewrite (array_map_total _ _ _ ERR_INVALID_ARG_TYPE _ single2_cases).
  rewrite (array_map_total _ _ _ ERR_INVALID_ARG_TYPE
             (filter is_identical ds) single1_cases).
  rewrite !forallb_filter.
  assert (Hall : forallb (emittable si) ds
                 = forallb (fun x => negb (is_distinct x)
                                     || defined1 x && defined2 x) ds
                   && forallb (fun x => negb (is_left x) || defined1 x) ds
                   && forallb (fun x => negb (is_right x) || defined2 x) ds
                   && (if si
                       then forallb (fun x => negb (is_identical x)
                                              || defined1 x) ds
                       else true)).
  { unfold emittable. rewrite !forallb_andb. f_equal.
    destruct si; simpl.
    - reflexivity.
    - clear. induction ds as [|x xs IH]; simpl; auto. }
  rewrite Hall.
  destruct (forallb (fun x => negb (is_distinct x) || _) ds); simpl;
    [|reflexivity].
  destruct (forallb (fun x => negb (is_left x) || _) ds); simpl;
    [|reflexivity].
  destruct (forallb (fun x => negb (is_right x) || _) ds); simpl;
    [|reflexivity].
  destruct si; [|reflexivity].
  destruct (forallb (fun x => negb (is_identical x) || _) ds); reflexivity.
Qed.

(** The run of a trace is the run of the empty trace after it. *)
Lemma run_frame (env : Env) (w : World) :
  run env w = (fst (run env []), w ++ snd (run env [])).
Proof.
  unfold compareFolders, try_catch, try_block, catch_block, bind, lift, ret,
    call_compare, emit.
  destruct (validate env) as [[|]|e]; simpl.
  - destruct (getPaths env) as [p|e]; simpl.
    + destruct (compare env _ _ _) as [res|e]; simpl.
      * destruct (partitions path_join _ _ _ _) as [r|e]; simpl;
          rewrite <- ?app_assoc; reflexivity.
      * rewrite <- !app_assoc. reflexivity.
    + rewrite <- app_assoc. reflexivity.
  - rewrite app_nil_r. reflexivity.
  - rewrite <- app_assoc. reflexivity.
Qed.

Lemma filters_length_bound (ds : list Difference) :
  List.length (filter is_distinct ds) + List.length (filter is_left ds)
  + List.length (filter is_right ds) + List.length (filter is_identical ds)
  <= List.length ds.
Proof.
  induction ds as [|d ds IH]; simpl; [lia|].
  assert (H : (if is_distinct d then 1 else 0) + (if is_left d then 1 else 0)
              + (if is_right d then 1 else 0)
              + (if is_identical d then 1 else 0) <= 1).
  { unfold is_distinct, is_left, is_right, is_identical.
    destruct (state d), (type1 d), (type2 d); simpl; lia. }
  destruct (is_distinct d), (is_left d), (is_right d), (is_identical d);
    simpl in *; lia.
Qed.

(** X1. A run in which validation passes, the path context has the pair
    [p] and [compare] resolves with a diff set whose kept entries all carry
    the paths and names read from them returns the partitions in closed
    form: each is the image, in diff-set order, of the entries its filter
    keeps, with the recorded paths [p]; the trace grows by the one call to
    [compare]. *)
Theorem completed_run_closed_form (env : Env) (w : World)
        (p : string * string) (res : CompareOutput) :
  validate env = Returns true ->
  getPaths env = Returns p ->
  compare_result env p = Returns res ->
  forallb (emittable (Config.showIdentical (configuration env)))
          (diffSet_or_empty res) = true ->
  run env w
  = (Returns (result_of path_join (Config.showIdentical (configuration env))
                        (diffSet_or_empty res) p),
     w ++ [compare_call env p]).
Proof.
  intros Hv Hp Hc Hok.
  unfold compareFolders, try_catch, try_block, bind, lift, ret, call_compare.
  rewrite Hv, Hp. simpl. unfold compare_result in Hc. rewrite Hc.
  rewrite partitions_by_cases, Hok. reflexivity.
Qed.

(** X2. One kept entry without a path or a name voids the whole run: when
    [compare] resolves with a diff set in which some entry kept by a filter
    lacks what the filter reads, [compareFolders] returns the empty
    response, and logs and shows the type error of [path.join], after the
    call to [compare]. *)
Theorem malformed_entry_voids_run (env : Env) (w : World)
        (p : string * string) (res : CompareOutput) (d : Difference) :
  validate env = Returns true ->
  getPaths env = Returns p ->
  compare_result env p = Returns res ->
  In d (diffSet_or_empty res) ->
  emittable (Config.showIdentical (configuration env)) d = false ->
  run env w
  = (Returns emptyResponse,
     w ++ [compare_call env p] ++ error_events ERR_INVALID_ARG_TYPE).
Proof.
  intros Hv Hp Hc Hin Hbad.
  assert (Hall : forallb (emittable (Config.showIdentical (configuration env)))
                         (diffSet_or_empty res) = false).
  { destruct (forallb _ _) eqn:E; [|reflexivity].
    rewrite forallb_forall in E. rewrite (E d Hin) in Hbad. discriminate. }
  unfold compareFolders, try_catch, try_block, bind, lift, ret, call_compare.
  rewrite Hv, Hp. simpl. unfold compare_result in Hc. rewrite Hc.
  rewrite partitions_by_cases, Hall.
  unfold catch_block, bind, emit, ret, error_events.
  rewrite <- !app_assoc. reflexivity.
Qed.

(** X3. In a run that completes, the four partitions together hold at most
    as many elements as the diff set has entries. *)
Theorem partition_sizes_bounded (env : Env) (ds : list Difference)
        (r : CompareResult) :
  completes env ds r ->
  List.length (distinct r) + List.length (left r) + List.length (right r)
  + List.length (identicals r) <= List.length ds.
Proof.
  intros [_ (p & res & _ & _ & _ & Hparts)].
  apply parts_inv in Hparts. destruct Hparts as (Hd & Hl & Hr & Hi & _).
  apply array_map_length in Hd, Hl, Hr.
  assert (Hi' : List.length (identicals r)
                <= List.length (filter is_identical ds)).
  { destruct (Config.showIdentical (configuration env)).
    - apply array_map_length in Hi. lia.
    - injection Hi as <-. simpl. lia. }
  pose proof (filters_length_bound ds). lia.
Qed.

(** X4. For the result of any run, [hasResult()] is truthy exactly when the
    run completed on a diff set that has an entry reported distinct, a
    left-only file or a right-only file. *)
Theorem hasResult_of_run (env : Env) (w w' : World) (r : CompareResult) :
  run env w = (Returns r, w') ->
  (truthy (hasResult r) = true <->
   exists ds, completes env ds r /\ existsb is_difference ds = true).
Proof.
  intros Hrun.
  assert (Hlen : forall ds, completes env ds r ->
            List.length (distinct r) = List.length (filter is_distinct ds) /\
            List.length (left r) = List.length (filter is_left ds) /\
            List.length (right r) = List.length (filter is_right ds)).
  { intros ds [_ (p & res & _ & _ & _ & Hparts)].
    apply parts_inv in Hparts. destruct Hparts as (Hd & Hl & Hr & _).
    apply array_map_length in Hd, Hl, Hr. auto. }
  assert (Hex : forall ds,
            existsb is_difference ds = false <->
            List.length (filter is_distinct ds) = 0 /\
            List.length (filter is_left ds) = 0 /\
            List.length (filter is_right ds) = 0).
  { intros ds. rewrite !filter_length_zero_existsb. unfold is_difference.
    induction ds as [|d ds IH]; simpl; [tauto|].
    destruct (is_distinct d), (is_left d), (is_right d); simpl;
      try tauto; intuition discriminate. }
  unfold truthy, hasResult. rewrite negb_true_iff, Nat.eqb_neq.
  rewrite !js_or_zero_iff. split.
  - intros Hne.
    destruct (run_inv path_join env w w' r Hrun) as [-> | [ds Hc]].
    + exfalso. apply Hne. simpl. auto.
    + exists ds. split; [exact Hc|].
      destruct (existsb is_difference ds) eqn:E; [reflexivity|].
      exfalso. apply Hne. apply Hex in E.
      destruct (Hlen ds Hc) as (H1 & H2 & H3). lia.
  - intros (ds & Hc & Hsome) Hzero.
    destruct (Hlen ds Hc) as (H1 & H2 & H3).
    assert (E : existsb is_difference ds = false) by (apply Hex; lia).
    congruence.
Qed.

(** X5. When [compare] resolves without a [diffSet], or with an empty one,
    the run completes with four empty partitions and records the folder
    paths of the path context, unlike the empty response. *)
Theorem absent_diffSet_gives_empty_partitions (env : Env) (w : World)
        (p : string * string) (res : CompareOutput) :
  validate env = Returns true ->
  getPaths env = Returns p ->
  compare_result env p = Returns res ->
  diffSet res = None \/ diffSet res = Some [] ->
  run env w
  = (Returns (mkCompareResult [] [] [] [] (fst p) (snd p)),
     w ++ [compare_call env p]).
Proof.
  intros Hv Hp Hc Hds.
  unfold compareFolders, try_catch, try_block, bind, lift, ret, call_compare.
  rewrite Hv, Hp. simpl. unfold compare_result in Hc. rewrite Hc.
  unfold diffSet_or_empty.
  destruct Hds as [-> | ->]; simpl;
    destruct (Config.showIdentical (configuration env)); reflexivity.
Qed.

(** X6. [compareFolders] always resolves, and what it adds to the trace has
    one of four shapes: nothing, when validation returned false; the one
    call to [compare]; the two error reports; or the call followed by the
    two reports. So [compare] is called at most once, on the paths of the
    path context, and never after a report. *)
Theorem run_trace_shape (env : Env) (w : World) :
  exists r evs,
    run env w = (Returns r, w ++ evs) /\
    ((validate env = Returns false /\ evs = []) \/
     (exists p, getPaths env = Returns p /\ evs = [compare_call env p]) \/
     (exists e, evs = error_events e) \/
     (exists p e, getPaths env = Returns p /\
                  evs = compare_call env p :: error_events e)).
Proof.
  destruct (body_cases path_join env w)
    as [[Hv Hb] | [(ds & r & p & Hc & Hp & Hb) | (e & w' & He & Hb)]].
  - exists emptyResponse, []. rewrite app_nil_r.
    split; [apply run_of_body_returns; exact Hb|].
    left. split; [exact Hv | reflexivity].
  - exists r, [compare_call env p].
    split; [apply run_of_body_returns; exact Hb|].
    right; left. exists p. split; [exact Hp | reflexivity].
  - destruct (body_throws path_join env w e He) as (w2 & Hb2 & Hw).
    rewrite Hb in Hb2. injection Hb2 as <-.
    destruct Hw as [-> | (p & Hp & ->)].
    + exists emptyResponse, (error_events e).
      split; [apply run_of_body_throws; exact Hb|].
      right; right; left. exists e. reflexivity.
    + exists emptyResponse, (compare_call env p :: error_events e).
      split.
      * rewrite (run_of_body_throws path_join env w _ e Hb).
        rewrite <- app_assoc. reflexivity.
      * right; right; right. exists p, e. split; [exact Hp | reflexivity].
Qed.

(** X7. Nothing is reported without an error: an error report in the trace
    of a run names an error that was thrown inside the [try] block. *)
Theorem reports_only_for_errors (env : Env) (e : JsError) (ev : Event) :
  In ev (snd (run env [])) ->
  is_report e ev ->
  run_error env e.
Proof.
  intros Hin [msg Hev].
  destruct (body_cases path_join env [])
    as [[Hv Hb] | [(ds & r & p & Hc & Hp & Hb) | (e' & w' & He & Hb)]].
  - rewrite (run_of_body_returns path_join env _ _ _ Hb) in Hin.
    destruct Hin.
  - rewrite (run_of_body_returns path_join env _ _ _ Hb) in Hin.
    simpl in Hin. destruct Hin as [<- | []].
    destruct Hev as [Hev | Hev]; discriminate Hev.
  - destruct (body_throws path_join env [] e' He) as (w2 & Hb2 & Hw).
    rewrite Hb in Hb2. injection Hb2 as <-.
    rewrite (run_of_body_throws path_join env _ _ _ Hb) in Hin.
    simpl in Hin.
    assert (Hrep : In ev (error_events e') -> run_error env e).
    { intros [<- | [<- | []]];
        destruct Hev as [Hev | Hev]; try discriminate Hev;
        injection Hev as _ <-; exact He. }
    destruct Hw as [-> | (p & Hp & ->)].
    + apply Hrep. exact Hin.
    + simpl in Hin. destruct Hin as [<- | Hin].
      * destruct Hev as [Hev | Hev]; discriminate Hev.
      * apply Hrep. exact Hin.
Qed.

End SessionFacts.

(** ** The options *)

Lemma concat_cons_nonempty (sep x : string) (l : list string) :
  l <> [] ->
  String.concat sep (x :: l)
  = String.append x (String.append sep (String.concat sep l)).
Proof.
  destruct l; [contradiction | reflexivity].
Qed.

Lemma string_append_assoc (a b c : string) :
  String.append (String.append a b) c = String.append a (String.append b c).
Proof.
  induction a as [|ch a IH]; simpl; [reflexivity|]. rewrite IH. reflexivity.
Qed.

Lemma array_join_splits_at_separator (sep a b : string)
      (xs ys : list string) :
  array_join sep (xs ++ [String.append a (String.append sep b)] ++ ys)
  = array_join sep (xs ++ [a; b] ++ ys).
Proof.
  unfold array_join. induction xs as [|x xs IH].
  - simpl app. destruct ys as [|y ys].
    + reflexivity.
    + rewrite (concat_cons_nonempty sep _ (y :: ys)) by discriminate.
      rewrite (concat_cons_nonempty sep a (b :: y :: ys)) by discriminate.
      rewrite (concat_cons_nonempty sep b (y :: ys)) by discriminate.
      rewrite !string_append_assoc. reflexivity.
  - rewrite <- !app_comm_cons.
    rewrite !concat_cons_nonempty
      by (intros H; apply app_eq_nil in H; destruct H; discriminate).
    do 2 f_equal. exact IH.
Qed.

(** X16. A filter pattern that contains a comma reaches [compare] as two
    patterns: [getOptions] joins the patterns by commas, so the options
    built from a list with the element [a,b] are those built from the list
    with the two elements [a] and [b] in its place, for [excludeFilter]
    and for [includeFilter]. *)
Theorem comma_in_filter_splits_pattern (c : Config.t) (a b : string)
        (xs ys : list string) :
  let joined := String.append a (String.append "," b) in
  getOptions (with_excludeFilter c (Some (xs ++ [joined] ++ ys)))
  = getOptions (with_excludeFilter c (Some (xs ++ [a; b] ++ ys))) /\
  getOptions (with_includeFilter c (Some (xs ++ [joined] ++ ys)))
  = getOptions (with_includeFilter c (Some (xs ++ [a; b] ++ ys))).
Proof.
  cbv zeta. unfold getOptions, with_excludeFilter, with_includeFilter.
  cbn [Config.compareContent Config.excludeFilter Config.includeFilter
       Config.ignoreFileNameCase Config.ignoreExtension
       Config.ignoreWhiteSpaces Config.ignoreAllWhiteSpaces
       Config.ignoreEmptyLines Config.ignoreLineEnding
       Config.showIdentical].
  rewrite !array_join_splits_at_separator. split; reflexivity.
Qed.

(** ** Titles and diff views *)

Lemma compared_path_title_not_empty (path relativePath : string) :
  compared_path_title path relativePath <> "".
Proof.
  unfold compared_path_title. destruct path; simpl; discriminate.
Qed.

(** X8. [getTitle] gives the empty title exactly when the format in force
    (the argument, or the configured one when the argument is undefined) is
    neither [name only] nor [compared path], as is [full path], or is
    [name only] with an empty relative path. *)
Theorem getTitle_empty_iff (configured path relativePath : string)
        (titleFormat : option string) :
  let format :=
    match titleFormat with Some f => f | None => configured end in
  getTitle configured path relativePath titleFormat = "" <->
  (format = "name only" /\ relativePath = "") \/
  (format <> "name only" /\ format <> "compared path").
Proof.
  cbv zeta. unfold getTitle.
  set (format := match titleFormat with Some f => f | None => configured end).
  destruct (String.eqb_spec format "name only") as [Hn | Hn].
  - split; [intros H; left; auto|].
    intros [[_ H] | [H _]]; [exact H | contradiction].
  - destruct (String.eqb_spec format "compared path") as [Hc | Hc].
    + split.
      * intros H. exfalso.
        exact (compared_path_title_not_empty path relativePath H).
      * intros [[H _] | [_ H]]; contradiction.
    + split; [intros _; right; auto | reflexivity].
Qed.

(** X9. [showDiffs] makes exactly one call on the host: the built-in diff
    of the two files exactly when [useDiffMerge] is off; the Diff & Merge
    command exactly when it is on and the extension was found; and only an
    error message, with no command at all, exactly when it is on and the
    extension is missing. *)
Theorem showDiffs_one_action (v : View) (file1 file2 relativePath : string)
        (w : list UiEvent) :
  exists ev,
    showDiffs v file1 file2 relativePath w = w ++ [ev] /\
    ((exists title,
        ev = UiExecuteCommand
               (vscode_diff (Uri_file file1) (Uri_file file2) title)) <->
     useDiffMerge v = false) /\
    (ev = UiExecuteCommand
            (diffMerge_compareSelected (Uri_file file1)
               [Uri_file file1; Uri_file file2]) <->
     useDiffMerge v = true /\ diffMergeExtension v = true) /\
    (ev = UiWindowError diffMerge_missing <->
     useDiffMerge v = true /\ diffMergeExtension v = false).
Proof.
  unfold showDiffs.
  destruct (useDiffMerge v); [destruct (diffMergeExtension v)|];
    eexists; (split; [reflexivity|]).
  - split; [|split].
    + split; [intros [t Ht]; discriminate Ht | discriminate].
    + split; [auto | reflexivity].
    + split; [discriminate | intros [_ H]; discriminate H].
  - split; [|split].
    + split; [intros [t Ht]; discriminate Ht | discriminate].
    + split; [discriminate | intros [_ H]; discriminate H].
    + split; [auto | reflexivity].
  - split; [|split].
    + split; [reflexivity | intros _; eexists; reflexivity].
    + split; [discriminate | intros [H _]; discriminate H].
    + split; [discriminate | intros [H _]; discriminate H].
Qed.

(** X10. The title of the built-in diff: empty for a pair that
    [compareIgnoredExtension] accepts (the format [full path] is passed and
    has no case) and when [full path] is configured; otherwise the relative
    path under [name only], and the first file with the relative path
    under [compared path]. *)
Theorem showDiffs_title (v : View) (file1 file2 relativePath : string)
        (w : list UiEvent) :
  useDiffMerge v = false ->
  exists title,
    showDiffs v file1 file2 relativePath w
    = w ++ [UiExecuteCommand
              (vscode_diff (Uri_file file1) (Uri_file file2) title)] /\
    (compareIgnoredExtension v file1 file2 = true \/
     diffViewTitle v = "full path" -> title = "") /\
    (compareIgnoredExtension v file1 file2 = false ->
     diffViewTitle v = "name only" -> title = relativePath) /\
    (compareIgnoredExtension v file1 file2 = false ->
     diffViewTitle v = "compared path" ->
     title = compared_path_title file1 relativePath).
Proof.
  intros Hoff. unfold showDiffs. rewrite Hoff.
  eexists. split; [reflexivity|].
  unfold getTitle.
  destruct (compareIgnoredExtension v file1 file2).
  - split; [intros _; reflexivity|]. split; discriminate.
  - split; [|split].
    + intros [H | H]; [discriminate H | rewrite H; reflexivity].
    + intros _ H. rewrite H. reflexivity.
    + intros _ H. rewrite H. reflexivity.
Qed.

(** ** Choosing the folders *)

Lemma opened_app (w1 w2 : list UiEvent) :
  opened (w1 ++ w2) = opened w1 + opened w2.
Proof.
  unfold opened. rewrite filter_app, length_app. reflexivity.
Qed.

Lemma opened_session (evs : World) : opened (map UiSession evs) = 0.
Proof.
  unfold opened. induction evs as [|ev evs IH]; simpl; auto.
Qed.

Section ChooserFacts.

Variable path_join : string -> string -> string.

Abbreviation choose := (chooseFoldersAndCompare path_join).
Abbreviation run := (compareFolders path_join).

(** The chooser, by the answers of the dialogs. *)
Lemma chooser_cases (h : Host) (path : option string) (w : list UiEvent) :
  let first :=
    if truthy_string path then Returns path else openFolder h (opened w) in
  let w1 := if truthy_string path then w else w ++ [UiOpenFolder] in
  let w2 := w1 ++ [UiOpenFolder] in
  choose h path w
  = match first with
    | Throws e => (Throws e, w1)
    | Returns a =>
        match openFolder h (opened w1) with
        | Throws e => (Throws e, w2)
        | Returns b =>
            match a, b with
            | Some f1, Some f2 =>
                if negb (String.eqb f1 "") && negb (String.eqb f2 "") then
                  (match fst (run (session_after h f1 f2) []) with
                   | Returns r => Returns (Some r)
                   | Throws e => Throws e
                   end,
                   w2 ++ UiSetPaths f1 f2
                      :: map UiSession (snd (run (session_after h f1 f2) [])))
                else (Returns None, w2)
            | _, _ => (Returns None, w2)
            end
        end
    end.
Proof.
  cbv zeta.
  unfold chooseFoldersAndCompare, ui_bind, open_dialog, ui_ret, ui_emit,
    run_session.
  destruct (truthy_string path) eqn:Hpath.
  - destruct (openFolder h (opened w)) as [b|e]; [|reflexivity].
    rewrite Hpath. destruct path as [f1|]; [|discriminate Hpath].
    simpl in Hpath. rewrite Hpath. simpl.
    destruct b as [f2|]; simpl; [|reflexivity].
    destruct (String.eqb f2 ""); simpl; [reflexivity|].
    destruct (run (session_after h f1 f2) []) as [[r|e] evs]; simpl;
      rewrite <- app_assoc; reflexivity.
  - destruct (openFolder h (opened w)) as [a|e]; [|reflexivity].
    destruct (openFolder h (opened (w ++ [UiOpenFolder]))) as [b|e];
      [|reflexivity].
    destruct a as [f1|], b as [f2|]; simpl; try reflexivity.
    + destruct (String.eqb f1 ""), (String.eqb f2 ""); simpl;
        try reflexivity.
      destruct (run (session_after h f1 f2) []) as [[r|e] evs]; simpl;
        rewrite <- app_assoc; reflexivity.
    + destruct (String.eqb f1 ""); reflexivity.
Qed.

Lemma run_returns (env : Env) (w : World) :
  exists r, fst (run env w) = Returns r.
Proof.
  destruct (run_cases path_join env w) as (r & w' & H & _).
  exists r. rewrite H. reflexivity.
Qed.

(** A run whose validation passes and whose path context has the pair [p]
    calls [compare] on [p] first, and records [p] unless it ends in the
    empty response. *)
Lemma run_on_paths (env : Env) (p : string * string) :
  validate env = Returns true ->
  getPaths env = Returns p ->
  exists r evs,
    run env [] = (Returns r, compare_call env p :: evs) /\
    (r = emptyResponse \/ (leftPath r = fst p /\ rightPath r = snd p)).
Proof.
  intros Hv Hp.
  unfold compareFolders, try_catch, try_block, catch_block, bind, lift, ret,
    call_compare, emit.
  rewrite Hv, Hp. simpl.
  destruct (compare env _ _ _) as [res|e]; simpl.
  - destruct (partitions path_join _ _ _ _) as [r|e] eqn:Hparts; simpl.
    + exists r, []. split; [reflexivity|]. right.
      apply parts_inv in Hparts. tauto.
    + eexists _, _. split; [reflexivity|]. left. reflexivity.
  - eexists _, _. split; [reflexivity|]. left. reflexivity.
Qed.

(** X11. [chooseFoldersAndCompare] opens one folder dialog when it is given
    a non-empty path, and two when it is not and the first dialog does not
    reject: also when the first dialog was cancelled, the second one is
    opened. In every case it opens one or two. *)
Theorem chooser_dialog_count (h : Host) (path : option string)
        (w : list UiEvent) :
  let w' := snd (choose h path w) in
  (truthy_string path = true -> opened w' = opened w + 1) /\
  (truthy_string path = false ->
   (forall e, openFolder h (opened w) <> Throws e) ->
   opened w' = opened w + 2) /\
  opened w + 1 <= opened w' <= opened w + 2.
Proof.
  cbv zeta. rewrite chooser_cases. cbv zeta.
  assert (Hone : opened [UiOpenFolder] = 1) by reflexivity.
  assert (Hset : forall f1 f2 evs,
             opened (UiSetPaths f1 f2 :: map UiSession evs) = 0).
  { intros f1 f2 evs. change (UiSetPaths f1 f2 :: map UiSession evs)
      with ([UiSetPaths f1 f2] ++ map UiSession evs).
    rewrite opened_app, opened_session. reflexivity. }
  destruct (truthy_string path) eqn:Hpath.
  - destruct (openFolder h (opened w)) as [b|e];
      [destruct path as [f1|]; [|discriminate Hpath];
       destruct b as [f2|];
       [destruct (negb (String.eqb f1 "") && negb (String.eqb f2 ""))|]|];
      simpl snd; rewrite ?opened_app, ?Hset, ?Hone;
      (split; [intros _; lia|]); (split; [discriminate|lia]).
  - destruct (openFolder h (opened w)) as [a|e].
    + destruct (openFolder h (opened (w ++ [UiOpenFolder]))) as [b|e];
        [destruct a as [f1|], b as [f2|];
         [destruct (negb (String.eqb f1 "") && negb (String.eqb f2 ""))| | |]|];
        simpl snd; rewrite ?opened_app, ?Hset, ?Hone;
        (split; [discriminate|]); (split; [intros _ _; lia|lia]).
    + simpl snd. rewrite ?opened_app, ?Hone.
      split; [discriminate|]. split; [|lia].
      intros _ H. exfalso. exact (H e eq_refl).
Qed.

(** X12. When [chooseFoldersAndCompare] resolves with [undefined], it has
    only opened dialogs: the paths were not set and no comparison was
    run. *)
Theorem chooser_undefined_only_dialogs (h : Host) (path : option string)
        (w w' : list UiEvent) :
  choose h path w = (Returns None, w') ->
  (truthy_string path = true /\ w' = w ++ [UiOpenFolder]) \/
  (truthy_string path = false /\ w' = w ++ [UiOpenFolder; UiOpenFolder]).
Proof.
  rewrite chooser_cases. cbv zeta.
  destruct (truthy_string path) eqn:Hpath.
  - destruct (openFolder h (opened w)) as [b|e]; [|discriminate].
    destruct path as [f1|]; [|discriminate Hpath].
    destruct b as [f2|].
    + destruct (negb (String.eqb f1 "") && negb (String.eqb f2 "")).
      * destruct (run_returns (session_after h f1 f2) []) as [r Hr].
        rewrite Hr. discriminate.
      * intros H. injection H as <-. left. auto.
    + intros H. injection H as <-. left. auto.
  - destruct (openFolder h (opened w)) as [a|e]; [|discriminate].
    destruct (openFolder h (opened (w ++ [UiOpenFolder]))) as [b|e];
      [|discriminate].
    assert (Hw : forall x, (Returns (@None CompareResult),
                            (w ++ [UiOpenFolder]) ++ [UiOpenFolder])
                           = (Returns None, x) ->
                 (false = true /\ x = w ++ [UiOpenFolder]) \/
                 (false = false /\ x = w ++ [UiOpenFolder; UiOpenFolder])).
    { intros x H. injection H as <-. right. rewrite <- app_assoc. auto. }
    destruct a as [f1|], b as [f2|]; try (apply Hw).
    destruct (negb (String.eqb f1 "") && negb (String.eqb f2 ""));
      [|apply Hw].
    destruct (run_returns (session_after h f1 f2) []) as [r Hr].
    rewrite Hr. discriminate.
Qed.

(** X13. When [chooseFoldersAndCompare] resolves with a result, both
    folders were non-empty, the left one being the path argument when that
    was given; the paths were set to them after the dialogs, and the result
    and the rest of the trace are those of [compareFolders] run after
    that. *)
Theorem chooser_result_is_session (h : Host) (path : option string)
        (w w' : list UiEvent) (r : CompareResult) :
  choose h path w = (Returns (Some r), w') ->
  exists f1 f2,
    f1 <> "" /\ f2 <> "" /\
    (truthy_string path = true -> path = Some f1) /\
    fst (run (session_after h f1 f2) []) = Returns r /\
    w' = w ++ repeat UiOpenFolder (if truthy_string path then 1 else 2)
           ++ UiSetPaths f1 f2
              :: map UiSession (snd (run (session_after h f1 f2) [])).
Proof.
  rewrite chooser_cases. cbv zeta.
  assert (Hne : forall f1 f2,
             negb (String.eqb f1 "") && negb (String.eqb f2 "") = true ->
             f1 <> "" /\ f2 <> "").
  { intros f1 f2 H. apply andb_true_iff in H. destruct H as [H1 H2].
    apply negb_true_iff in H1, H2.
    split; apply String.eqb_neq; assumption. }
  destruct (truthy_string path) eqn:Hpath.
  - destruct (openFolder h (opened w)) as [b|e]; [|discriminate].
    destruct path as [f1|]; [|discriminate Hpath].
    destruct b as [f2|]; [|discriminate].
    destruct (negb (String.eqb f1 "") && negb (String.eqb f2 "")) eqn:Hboth;
      [|discriminate].
    destruct (fst (run (session_after h f1 f2) [])) as [r0|e] eqn:Hr;
      [|discriminate].
    intros H. injection H as <- <-.
    destruct (Hne f1 f2 Hboth) as [H1 H2].
    exists f1, f2. repeat split; auto.
    simpl. rewrite <- app_assoc. reflexivity.
  - destruct (openFolder h (opened w)) as [a|e]; [|discriminate].
    destruct (openFolder h (opened (w ++ [UiOpenFolder]))) as [b|e];
      [|discriminate].
    destruct a as [f1|], b as [f2|]; try discriminate.
    destruct (negb (String.eqb f1 "") && negb (String.eqb f2 "")) eqn:Hboth;
      [|discriminate].
    destruct (fst (run (session_after h f1 f2) [])) as [r0|e] eqn:Hr;
      [|discriminate].
    intros H. injection H as <- <-.
    destruct (Hne f1 f2 Hboth) as [H1 H2].
    exists f1, f2. repeat split; auto; try discriminate.
    simpl. rewrite <- !app_assoc. reflexivity.
Qed.

(** X14. [chooseFoldersAndCompare] rejects only when a folder dialog
    rejects, with the error of the dialog and before any path is set: an
    error of the comparison never reaches its caller as a rejection. *)
Theorem chooser_rejects_only_on_dialog (h : Host) (path : option string)
        (w w' : list UiEvent) (e : JsError) :
  choose h path w = (Throws e, w') ->
  (exists n, openFolder h n = Throws e) /\
  (w' = w ++ [UiOpenFolder] \/ w' = w ++ [UiOpenFolder; UiOpenFolder]).
Proof.
  rewrite chooser_cases. cbv zeta.
  destruct (truthy_string path) eqn:Hpath.
  - destruct (openFolder h (opened w)) as [b|e0] eqn:Hopen.
    + destruct path as [f1|]; [|discriminate Hpath].
      destruct b as [f2|]; [|discriminate].
      destruct (negb (String.eqb f1 "") && negb (String.eqb f2 ""));
        [|discriminate].
      destruct (run_returns (session_after h f1 f2) []) as [r Hr].
      rewrite Hr. discriminate.
    + intros H. injection H as <- <-. split; [eauto | left; reflexivity].
  - destruct (openFolder h (opened w)) as [a|e0] eqn:Hopen1.
    + destruct (openFolder h (opened (w ++ [UiOpenFolder]))) as [b|e1]
        eqn:Hopen2.
      * destruct a as [f1|], b as [f2|]; try discriminate.
        destruct (negb (String.eqb f1 "") && negb (String.eqb f2 ""));
          [|discriminate].
        destruct (run_returns (session_after h f1 f2) []) as [r Hr].
        rewrite Hr. discriminate.
      * intros H. injection H as <- <-. split; [eauto|].
        right. rewrite <- app_assoc. reflexivity.
    + intros H. injection H as <- <-. split; [eauto | left; reflexivity].
Qed.

(** X15. Given a non-empty path [f1], a dialog answered with a non-empty
    [f2], a path context that returns what was set and a validation that
    passes, [chooseFoldersAndCompare] sets the paths to [f1] and [f2] and
    then calls [compare] on exactly these two folders; the result records
    [f1] and [f2], unless the run ended in the empty response. *)
Theorem chooser_compares_chosen_folders (h : Host) (f1 f2 : string)
        (w : list UiEvent) :
  f1 <> "" -> f2 <> "" ->
  openFolder h (opened w) = Returns (Some f2) ->
  getPaths_after h f1 f2 = Returns (f1, f2) ->
  validate (session h) = Returns true ->
  exists r evs,
    choose h (Some f1) w
    = (Returns (Some r),
       w ++ [UiOpenFolder; UiSetPaths f1 f2;
             UiSession
               (EvCompare f1 f2
                  (concatenatedOptions
                     (getOptions (configuration (session h)))))]
         ++ map UiSession evs) /\
    (r = emptyResponse \/ (leftPath r = f1 /\ rightPath r = f2)).
Proof.
  intros H1 H2 Hopen Hround Hv.
  rewrite chooser_cases. cbv zeta.
  apply String.eqb_neq in H1, H2.
  simpl truthy_string. rewrite H1. simpl negb. cbv iota.
  rewrite Hopen, H1, H2. simpl negb. simpl andb. cbv iota.
  destruct (run_on_paths (session_after h f1 f2) (f1, f2) Hv Hround)
    as (r & evs & Hrun & Hr).
  rewrite Hrun. simpl fst. simpl snd.
  exists r, evs. split; [|exact Hr].
  rewrite <- app_assoc. reflexivity.
Qed.

End ChooserFacts.

(** ** The further properties at concrete runs *)

Lemma completed_run_closed_form_witness :
  let env := env_with (with_showIdentical default_config true) sample_diffSet in
  validate env = Returns true /\
  getPaths env = Returns ("/l", "/r") /\
  compare_result env ("/l", "/r")
  = Returns (mkCompareOutput (Some sample_diffSet)) /\
  forallb (emittable true) sample_diffSet = true /\
  compareFolders posix_join env []
  = (Returns (result_of posix_join true sample_diffSet ("/l", "/r")),
     [] ++ [compare_call env ("/l", "/r")]) /\
  result_of posix_join true sample_diffSet ("/l", "/r") = sample_result true.
Proof.
  cbv zeta.
  split; [reflexivity|]. split; [reflexivity|]. split; [reflexivity|].
  split; [reflexivity|]. split; [|reflexivity].
  exact (completed_run_closed_form posix_join
           (env_with (with_showIdentical default_config true) sample_diffSet)
           [] ("/l", "/r") (mkCompareOutput (Some sample_diffSet))
           eq_refl eq_refl eq_refl eq_refl).
Defined.

Lemma malformed_entry_voids_run_witness :
  let ds := sample_diffSet ++ [entry_without_path] in
  let env := env_with default_config ds in
  validate env = Returns true /\
  getPaths env = Returns ("/l", "/r") /\
  compare_result env ("/l", "/r") = Returns (mkCompareOutput (Some ds)) /\
  In entry_without_path ds /\
  emittable false entry_without_path = false /\
  compareFolders posix_join env []
  = (Returns emptyResponse,
     [] ++ [compare_call env ("/l", "/r")]
        ++ error_events ERR_INVALID_ARG_TYPE).
Proof.
  cbv zeta.
  assert (Hin : In entry_without_path (sample_diffSet ++ [entry_without_path])).
  { apply in_or_app. right. left. reflexivity. }
  split; [reflexivity|]. split; [reflexivity|]. split; [reflexivity|].
  split; [exact Hin|]. split; [reflexivity|].
  exact (malformed_entry_voids_run posix_join
           (env_with default_config (sample_diffSet ++ [entry_without_path]))
           [] ("/l", "/r")
           (mkCompareOutput (Some (sample_diffSet ++ [entry_without_path])))
           entry_without_path eq_refl eq_refl eq_refl Hin eq_refl).
Defined.

Lemma partition_sizes_bounded_witness :
  let env := env_with (with_showIdentical default_config true) sample_diffSet in
  let r := sample_result true in
  completes posix_join env sample_diffSet r /\
  List.length (distinct r) + List.length (left r) + List.length (right r)
  + List.length (identicals r) <= List.length sample_diffSet.
Proof.
  cbv zeta.
  assert (H : completes posix_join
                (env_with (with_showIdentical default_config true)
                          sample_diffSet)
                sample_diffSet (sample_result true)).
  { split; [reflexivity|].
    exists ("/l", "/r"), (mkCompareOutput (Some sample_diffSet)).
    split; [reflexivity|]. split; [reflexivity|]. split; reflexivity. }
  split; [exact H|].
  exact (partition_sizes_bounded posix_join _ _ _ H).
Defined.

Lemma hasResult_of_run_witness :
  let env := env_with default_config sample_diffSet in
  let r := sample_result false in
  compareFolders posix_join env []
  = (Returns r, [compare_call env ("/l", "/r")]) /\
  (truthy (hasResult r) = true <->
   exists ds, completes posix_join env ds r /\
              existsb is_difference ds = true).
Proof.
  cbv zeta.
  assert (H : compareFolders posix_join
                (env_with default_config sample_diffSet) []
              = (Returns (sample_result false),
                 [compare_call (env_with default_config sample_diffSet)
                               ("/l", "/r")])).
  { reflexivity. }
  split; [exact H|].
  exact (hasResult_of_run posix_join _ _ _ _ H).
Defined.

Lemma absent_diffSet_gives_empty_partitions_witness :
  let env := env_without_diffSet default_config in
  validate env = Returns true /\
  getPaths env = Returns ("/l", "/r") /\
  compare_result env ("/l", "/r") = Returns (mkCompareOutput None) /\
  (diffSet (mkCompareOutput None) = None \/
   diffSet (mkCompareOutput None) = Some []) /\
  compareFolders posix_join env []
  = (Returns (mkCompareResult [] [] [] [] "/l" "/r"),
     [] ++ [compare_call env ("/l", "/r")]).
Proof.
  cbv zeta.
  assert (H : diffSet (mkCompareOutput None) = None \/
              diffSet (mkCompareOutput None) = Some []).
  { left. reflexivity. }
  split; [reflexivity|]. split; [reflexivity|]. split; [reflexivity|].
  split; [exact H|].
  exact (absent_diffSet_gives_empty_partitions posix_join
           (env_without_diffSet default_config) [] ("/l", "/r")
           (mkCompareOutput None) eq_refl eq_refl eq_refl H).
Defined.

Lemma reports_only_for_errors_witness :
  let env := env_rejecting default_config "EACCES" in
  let ev := EvLog "error while comparing" (Rejection "EACCES") in
  In ev (snd (compareFolders posix_join env [])) /\
  is_report (Rejection "EACCES") ev /\
  run_error posix_join env (Rejection "EACCES").
Proof.
  cbv zeta.
  assert (Hin : In (EvLog "error while comparing" (Rejection "EACCES"))
                   (snd (compareFolders posix_join
                           (env_rejecting default_config "EACCES") []))).
  { simpl. right. left. reflexivity. }
  assert (Hrep : is_report (Rejection "EACCES")
                   (EvLog "error while comparing" (Rejection "EACCES"))).
  { exists "error while comparing". left. reflexivity. }
  split; [exact Hin|]. split; [exact Hrep|].
  exact (reports_only_for_errors posix_join _ _ _ Hin Hrep).
Defined.

Lemma showDiffs_title_witness :
  let v := mkView false "compared path" false (fun _ _ => false) in
  useDiffMerge v = false /\
  exists title,
    showDiffs v "/l/a.txt" "/r/a.txt" "a.txt" []
    = [] ++ [UiExecuteCommand
               (vscode_diff (Uri_file "/l/a.txt") (Uri_file "/r/a.txt") title)] /\
    (compareIgnoredExtension v "/l/a.txt" "/r/a.txt" = true \/
     diffViewTitle v = "full path" -> title = "") /\
    (compareIgnoredExtension v "/l/a.txt" "/r/a.txt" = false ->
     diffViewTitle v = "name only" -> title = "a.txt") /\
    (compareIgnoredExtension v "/l/a.txt" "/r/a.txt" = false ->
     diffViewTitle v = "compared path" ->
     title = compared_path_title "/l/a.txt" "a.txt").
Proof.
  cbv zeta. split; [reflexivity|].
  exact (showDiffs_title
           (mkView false "compared path" false (fun _ _ => false))
           "/l/a.txt" "/r/a.txt" "a.txt" [] eq_refl).
Defined.

Lemma chooser_undefined_only_dialogs_witness :
  let h := host_of [None; Some "/r"] (env_with default_config sample_diffSet) in
  chooseFoldersAndCompare posix_join h None []
  = (Returns None, [UiOpenFolder; UiOpenFolder]) /\
  ((truthy_string None = true /\
    [UiOpenFolder; UiOpenFolder] = [] ++ [UiOpenFolder]) \/
   (truthy_string None = false /\
    [UiOpenFolder; UiOpenFolder] = [] ++ [UiOpenFolder; UiOpenFolder])).
Proof.
  cbv zeta.
  assert (H : chooseFoldersAndCompare posix_join
                (host_of [None; Some "/r"]
                         (env_with default_config sample_diffSet)) None []
              = (Returns None, [UiOpenFolder; UiOpenFolder])).
  { reflexivity. }
  split; [exact H|].
  exact (chooser_undefined_only_dialogs posix_join _ _ _ _ H).
Defined.

Lemma chooser_result_is_session_witness :
  let h := host_of [Some "/r"] (env_with default_config sample_diffSet) in
  let w' := [UiOpenFolder; UiSetPaths "/l" "/r";
             UiSession (compare_call (session h) ("/l", "/r"))] in
  chooseFoldersAndCompare posix_join h (Some "/l") []
  = (Returns (Some (sample_result false)), w') /\
  exists f1 f2,
    f1 <> "" /\ f2 <> "" /\
    (truthy_string (Some "/l") = true -> Some "/l" = Some f1) /\
    fst (compareFolders posix_join (session_after h f1 f2) [])
    = Returns (sample_result false) /\
    w' = [] ++ repeat UiOpenFolder
                 (if truthy_string (Some "/l") then 1 else 2)
            ++ UiSetPaths f1 f2
               :: map UiSession
                    (snd (compareFolders posix_join (session_after h f1 f2) [])).
Proof.
  cbv zeta.
  assert (H : chooseFoldersAndCompare posix_join
                (host_of [Some "/r"] (env_with default_config sample_diffSet))
                (Some "/l") []
              = (Returns (Some (sample_result false)),
                 [UiOpenFolder; UiSetPaths "/l" "/r";
                  UiSession
                    (compare_call
                       (session (host_of [Some "/r"]
                                   (env_with default_config sample_diffSet)))
                       ("/l", "/r"))])).
  { reflexivity. }
  split; [exact H|].
  exact (chooser_result_is_session posix_join _ _ _ _ _ H).
Defined.

Lemma chooser_rejects_only_on_dialog_witness :
  let h := host_rejecting "dialog failed"
             (env_with default_config sample_diffSet) in
  chooseFoldersAndCompare posix_join h None []
  = (Throws (Rejection "dialog failed"), [UiOpenFolder]) /\
  (exists n, openFolder h n = Throws (Rejection "dialog failed")) /\
  ([UiOpenFolder] = [] ++ [UiOpenFolder] \/
   [UiOpenFolder] = [] ++ [UiOpenFolder; UiOpenFolder]).
Proof.
  cbv zeta.
  assert (H : chooseFoldersAndCompare posix_join
                (host_rejecting "dialog failed"
                   (env_with default_config sample_diffSet)) None []
              = (Throws (Rejection "dialog failed"), [UiOpenFolder])).
  { reflexivity. }
  split; [exact H|].
  exact (chooser_rejects_only_on_dialog posix_join _ _ _ _ _ H).
Defined.

Lemma chooser_compares_chosen_folders_witness :
  let h := host_of [Some "/r"] (env_with default_config sample_diffSet) in
  "/l" <> "" /\ "/r" <> "" /\
  openFolder h (opened []) = Returns (Some "/r") /\
  getPaths_after h "/l" "/r" = Returns ("/l", "/r") /\
  validate (session h) = Returns true /\
  exists r evs,
    chooseFoldersAndCompare posix_join h (Some "/l") []
    = (Returns (Some r),
       [] ++ [UiOpenFolder; UiSetPaths "/l" "/r";
              UiSession
                (EvCompare "/l" "/r"
                   (concatenatedOptions
                      (getOptions (configuration (session h)))))]
          ++ map UiSession evs) /\
    (r = emptyResponse \/ (leftPath r = "/l" /\ rightPath r = "/r")).
Proof.
  cbv zeta.
  assert (H1 : "/l" <> "") by discriminate.
  assert (H2 : "/r" <> "") by discriminate.
  split; [exact H1|]. split; [exact H2|].
  split; [reflexivity|]. split; [reflexivity|]. split; [reflexivity|].
  exact (chooser_compares_chosen_folders posix_join
           (host_of [Some "/r"] (env_with default_config sample_diffSet))
           "/l" "/r" [] H1 H2 eq_refl eq_refl eq_refl).
Defined.
